(** * duckq: the priority queue over an embedded transactional store

    A shallow embedding of [priority_queue.go] and of the registry
    ([New], [NewPriorityQueue]) of goptics/duckq.

    The Go code talks to the store through [database/sql]: it begins a
    transaction, runs one query and/or one statement, and commits or rolls
    back.  The store is modelled as a table (a list of rows) with its id
    sequence; the calls of one operation are threaded through a small state
    monad over a [World], and everything the code cannot control (whether a
    call to the store fails, which of several equally ordered rows [LIMIT 1]
    returns, the clock, the random blocks of a cuid) is an input [Env] of the
    operation. *)

From Stdlib Require Import ZArith List Bool String Ascii Lia Arith.
From Stdlib.Strings Require Import Byte.
From Stdlib Require Import Permutation Sorted.
Import ListNotations.
Local Open Scope Z_scope.

Set Implicit Arguments.

(* ------------------------------------------------------------------ *)
(** ** The table of a priority queue ([createPriorityTable]) *)

(** [status TEXT NOT NULL]: the code writes 'pending' and 'processing';
    'done' is written by the base queue's Acknowledge. *)
Inductive Status := pending | processing | done.

Definition Status_eqb (a b : Status) : bool :=
  match a, b with
  | pending, pending | processing, processing | done, done => true
  | _, _ => false
  end.

Definition bytes := list Byte.byte.

(** One row of the table created by [createPriorityTable]; a NULL [ack_id]
    is [None]. *)
Record Row := mkRow {
  id : Z;
  data : bytes;
  status : Status;
  ack_id : option string;
  ack : bool;
  created_at : Z;
  updated_at : Z;
  priority : Z
}.

(** The store as the queue sees it: the committed rows of its table and the
    next value of the sequence [<table>_id_seq] ([START 1]). *)
Record Store := mkStore {
  rows : list Row;
  seq : Z
}.

Definition empty_store : Store := mkStore [] 1.

(** Errors of [database/sql] as far as the code tells them apart. *)
Inductive error :=
| ErrNoRows        (* sql.ErrNoRows *)
| ErrTxDone        (* sql.ErrTxDone: the transaction is already finished *)
| ErrConstraint    (* PRIMARY KEY or UNIQUE violated *)
| ErrDriver (msg : string). (* any other failure of the store *)

(** The statements the code executes, with their bound parameters. *)
Inductive stmt :=
| Insert (item : bytes) (st : Status) (created updated : Z) (prio : Z)
| UpdateProcessing (ackID : string) (now : Z) (rowid : Z)
| Delete (rowid : Z).

(** Calls made to the store, in the order they are made. *)
Inductive Call :=
| CBegin
| CQuery
| CExec (s : stmt)
| CCommit
| CRollback.

(** [World]: the committed store, the working copy of the open transaction
    (if one is open) and the calls made so far. *)
Record World := mkWorld {
  store : Store;
  tx : option (list Row);
  trace : list Call
}.

(** What one operation receives from outside the code. *)
Record Env := mkEnv {
  begin_err : bool;      (* pq.client.Begin() fails *)
  scan_err : bool;       (* row.Scan fails with an error other than ErrNoRows *)
  tie : nat;             (* which of the rows ORDER BY puts first LIMIT 1 returns *)
  exec_err : bool;       (* tx.Exec fails in the store *)
  commit_err : bool;     (* tx.Commit() fails *)
  now : Z;               (* time.Now().UTC() *)
  cuid_blocks : string   (* timestamp, counter, fingerprint and random blocks of a cuid *)
}.

Definition healthy (e : Env) : bool :=
  negb (begin_err e) && negb (scan_err e) && negb (exec_err e) && negb (commit_err e).

(* ------------------------------------------------------------------ *)
(** ** The state monad of store calls *)

Definition M (A : Type) : Type := World -> A * World.

Definition ret {A} (a : A) : M A := fun w => (a, w).

Definition bind {A B} (m : M A) (k : A -> M B) : M B :=
  fun w => let (a, w') := m w in k a w'.

Notation "x <- m ;; k" := (bind m (fun x => k))
  (at level 61, m at next level, right associativity).
Notation "m ;;; k" := (bind m (fun _ => k))
  (at level 61, right associativity).

Definition log (c : Call) (w : World) : World :=
  mkWorld (store w) (tx w) (trace w ++ [c]).

Definition set_tx (t : option (list Row)) (w : World) : World :=
  mkWorld (store w) t (trace w).

Definition set_rows (l : list Row) (w : World) : World :=
  mkWorld (mkStore l (seq (store w))) (tx w) (trace w).

Definition set_seq (n : Z) (w : World) : World :=
  mkWorld (mkStore (rows (store w)) n) (tx w) (trace w).

(* ------------------------------------------------------------------ *)
(** ** The store's side of each call *)

Definition is_pending (r : Row) : bool := Status_eqb (status r) pending.

(** [ORDER BY priority ASC, created_at ASC]: [r] is not after [r']. *)
Definition key_leb (r r' : Row) : bool :=
  (priority r <? priority r') ||
  ((priority r =? priority r') && (created_at r <=? created_at r')).

(** [WHERE status = 'pending'] *)
Definition pending_rows (l : list Row) : list Row := filter is_pending l.

(** The rows the ordering may put first: those not after any other.  The
    query names no further key, so which of them comes first is the
    store's choice. *)
Definition first_in_order (l : list Row) : list Row :=
  filter (fun r => forallb (key_leb r) l) l.

(** [SELECT id, data FROM t WHERE status = 'pending'
     ORDER BY priority ASC, created_at ASC LIMIT 1] *)
Definition query_next (choice : nat) (l : list Row) : option Row :=
  let c := first_in_order (pending_rows l) in
  nth_error c (choice mod List.length c)%nat.

Definition has_id (i : Z) (r : Row) : bool := id r =? i.

Definition ack_is (a : string) (r : Row) : bool :=
  match ack_id r with
  | Some b => String.eqb a b
  | None => false
  end.

(** [UPDATE t SET status = 'processing', ack_id = ?, updated_at = ? WHERE id = ?] *)
Definition mark_processing (a : string) (t : Z) (i : Z) (r : Row) : Row :=
  if has_id i r
  then mkRow (id r) (data r) processing (Some a) (ack r) (created_at r) t (priority r)
  else r.

(** [ack_id TEXT UNIQUE]: the update is refused when it would store [a] on
    row [i] while another row holds [a] already. *)
Definition ack_conflict (a : string) (i : Z) (l : list Row) : bool :=
  existsb (has_id i) l && existsb (fun r => ack_is a r && negb (has_id i r)) l.

(** The effect of a statement on the rows of the transaction; an [Insert]
    takes its id from the sequence. *)
Definition apply_stmt (s : stmt) (nextval : Z) (l : list Row) : error + list Row :=
  match s with
  | Insert item st created updated prio =>
      if existsb (has_id nextval) l then inl ErrConstraint
      else inr (l ++ [mkRow nextval item st None false created updated prio])
  | UpdateProcessing a t i =>
      if ack_conflict a i l then inl ErrConstraint
      else inr (map (mark_processing a t i) l)
  | Delete i => inr (filter (fun r => negb (has_id i r)) l)
  end.

Definition uses_sequence (s : stmt) : bool :=
  match s with Insert _ _ _ _ _ => true | _ => false end.

Definition driver_failure : error := ErrDriver "store failure".

(** [pq.client.Begin()]: the transaction starts from the committed rows. *)
Definition Begin (fails : bool) : M (option error) := fun w =>
  let w := log CBegin w in
  if fails then (Some driver_failure, w)
  else (None, set_tx (Some (rows (store w))) w).

(** [tx.QueryRow(...)] followed by [row.Scan(&id, &data)]. *)
Definition QueryRowScan (fails : bool) (choice : nat) : M (error + Z * bytes) := fun w =>
  let w := log CQuery w in
  match tx w with
  | None => (inl ErrTxDone, w)
  | Some l =>
      if fails then (inl driver_failure, w)
      else match query_next choice l with
           | None => (inl ErrNoRows, w)
           | Some r => (inr (id r, data r), w)
           end
  end.

(** [tx.Exec(...)]: the statement changes the working copy only.  A value
    taken from the sequence is not given back when the transaction is
    rolled back. *)
Definition Exec (fails : bool) (s : stmt) : M (option error) := fun w =>
  let w := log (CExec s) w in
  match tx w with
  | None => (Some ErrTxDone, w)
  | Some l =>
      if fails then (Some driver_failure, w)
      else
        let n := seq (store w) in
        let w := if uses_sequence s then set_seq (n + 1) w else w in
        match apply_stmt s n l with
        | inl err => (Some err, w)
        | inr l' => (None, set_tx (Some l') w)
        end
  end.

(** [tx.Commit()]: the working copy becomes the committed rows, or the
    transaction is lost as a whole. *)
Definition Commit (fails : bool) : M (option error) := fun w =>
  let w := log CCommit w in
  match tx w with
  | None => (Some ErrTxDone, w)
  | Some l =>
      if fails then (Some driver_failure, set_tx None w)
      else (None, set_tx None (set_rows l w))
  end.

(** [tx.Rollback()]: the working copy is dropped; on a finished
    transaction the call changes nothing. *)
Definition Rollback : M unit := fun w =>
  (tt, set_tx None (log CRollback w)).

(** [defer func() { if err != nil { tx.Rollback() } }()]: [body] returns its
    result together with the value [err] holds when the function returns. *)
Definition with_deferred_rollback {A} (body : M (A * option error)) : M A :=
  p <- body ;;
  match snd p with
  | Some _ => Rollback ;;; ret (fst p)
  | None => ret (fst p)
  end.

(* ------------------------------------------------------------------ *)
(** ** The queue *)

(** [*sql.DB]: the handle of the opened store. *)
Record DB := mkDB { dsn : string }.

(** The fields of [Queue] that [priority_queue.go] uses. *)
Record Queue := mkQueue {
  client : DB;
  tableName : string;
  removeOnComplete : bool;
  closed : bool
}.

(** [type PriorityQueue struct { *Queue }] *)
Record PriorityQueue := mkPriorityQueue {
  base : Queue
}.

(** [cuid.New()]: the letter c followed by the blocks. *)
Definition cuid_New (blocks : string) : string := String "c" blocks.

(** The result of [dequeueInternal]: [(any, bool, string)]; a nil payload
    is [None]. *)
Definition DequeueResult : Type := option bytes * bool * string.

Definition not_found : DequeueResult := (None, false, EmptyString).

Definition is_nil (err : option error) : bool :=
  match err with None => true | Some _ => false end.

(** [func (pq *PriorityQueue) Enqueue(item any, priority int) bool] *)
Definition Enqueue (pq : PriorityQueue) (e : Env) (item : bytes) (prio : Z) : M bool :=
  if closed (base pq) then ret false
  else
    let now := now e in
    err <- Begin (begin_err e) ;;
    match err with
    | Some _ => ret false
    | None =>
        with_deferred_rollback (
          err <- Exec (exec_err e) (Insert item pending now now prio) ;;
          match err with
          | Some _ => Rollback ;;; ret (false, err)
          | None =>
              err <- Commit (commit_err e) ;;
              ret (is_nil err, err)
          end)
    end.

(** [func (pq *PriorityQueue) dequeueInternal(withAckId bool) (any, bool, string)] *)
Definition dequeueInternal (pq : PriorityQueue) (e : Env) (withAckId : bool)
  : M DequeueResult :=
  if closed (base pq) then ret not_found
  else
    err <- Begin (begin_err e) ;;
    match err with
    | Some _ => ret not_found
    | None =>
        with_deferred_rollback (
          scanned <- QueryRowScan (scan_err e) (tie e) ;;
          match scanned with
          | inl ErrNoRows => Rollback ;;; ret (not_found, Some ErrNoRows)
          | inl err => Rollback ;;; ret (not_found, Some err)
          | inr (rowid, payload) =>
              let now := now e in
              let ackID := if withAckId then cuid_New (cuid_blocks e) else EmptyString in
              err <- (if withAckId
                      then Exec (exec_err e) (UpdateProcessing ackID now rowid)
                      else Exec (exec_err e) (Delete rowid)) ;;
              match err with
              | Some _ => Rollback ;;; ret (not_found, err)
              | None =>
                  err <- Commit (commit_err e) ;;
                  match err with
                  | Some _ => ret (not_found, err)
                  | None => ret ((Some payload, true, ackID), None)
                  end
              end
          end)
    end.

(** [func (pq *PriorityQueue) Dequeue() (any, bool)] *)
Definition Dequeue (pq : PriorityQueue) (e : Env) : M (option bytes * bool) :=
  r <- dequeueInternal pq e false ;;
  let '(item, success, _) := r in ret (item, success).

(** [func (pq *PriorityQueue) DequeueWithAckId() (any, bool, string)] *)
Definition DequeueWithAckId (pq : PriorityQueue) (e : Env) : M DequeueResult :=
  dequeueInternal pq e true.

(* ------------------------------------------------------------------ *)
(** ** Construction *)

(** A Go call either returns or panics. *)
Inductive Outcome (A : Type) :=
| Returns (a : A)
| Panics (msg : string).
Arguments Returns {A} a.
Arguments Panics {A} msg.

(** [err.Error()] *)
Definition error_text (err : error) : string :=
  match err with
  | ErrNoRows => "sql: no rows in result set"
  | ErrTxDone => "sql: transaction has already been committed or rolled back"
  | ErrConstraint => "constraint violated"
  | ErrDriver msg => msg
  end.

(** [type queues struct { client *sql.DB }] *)
Record queues := mkQueues { queues_client : DB }.

(** [sql.Open("duckdb", dbPath)]: [open_err] is the error the driver
    reports for this location, if any. *)
Definition sql_Open (open_err : option error) (dbPath : string) : DB * option error :=
  match open_err with
  | Some err => (mkDB EmptyString, Some err)
  | None => (mkDB dbPath, None)
  end.

(** [func New(dbPath string) Queues] *)
Definition New (open_err : option error) (dbPath : string) : Outcome queues :=
  let (db, err) := sql_Open open_err dbPath in
  match err with
  | Some err => Panics ("failed to open database: " ++ error_text err)
  | None => Returns (mkQueues db)
  end.

(** What the store answers to the two statements of [createPriorityTable]. *)
Record SetupEnv := mkSetupEnv {
  create_seq_err : option error;    (* CREATE SEQUENCE IF NOT EXISTS fails *)
  create_table_err : option error;  (* CREATE TABLE / CREATE INDEX IF NOT EXISTS fails *)
  setup_now : Z
}.

(** [func createPriorityTable(db *sql.DB, tableName string) error].  Both
    statements are IF NOT EXISTS: on a table that exists they change nothing,
    and a table that does not exist yet has no rows, so the rows of the
    [Store] are the same before and after. *)
Definition createPriorityTable (se : SetupEnv) (db : DB) (name : string) : M (option error) :=
  match create_seq_err se with
  | Some err => ret (Some err)
  | None => ret (create_table_err se)
  end.

(** [type Option func(q *Queue)]: an option updates the queue in place. *)
Definition Option : Type := Queue -> Queue.

(** [for _, opt := range opts { opt(q) }] *)
Definition apply_options (opts : list Option) (q : Queue) : Queue :=
  fold_left (fun q opt => opt q) opts q.

Definition requeue_row (t : Z) (r : Row) : Row :=
  match status r with
  | processing =>
      mkRow (id r) (data r) pending None (ack r) (created_at r) t (priority r)
  | _ => r
  end.

(** Modelled from the spec: [Queue.RequeueNoAckRows] is declared in the base
    queue's file, which is not among the sources.  "Every row currently
    processing is reset to pending, ack_id cleared, updated_at=now()." *)
Definition RequeueNoAckRows (q : Queue) (t : Z) : M unit := fun w =>
  (tt, set_rows (map (requeue_row t) (rows (store w))) w).

(** The error of [fmt.Errorf("failed to initialize table: %w", err)]. *)
Definition wrap_init_error (err : error) : error :=
  ErrDriver ("failed to initialize table: " ++ error_text err).

(** [func newPriorityQueue(db *sql.DB, tableName string, opts ...Option)]
    returning a pointer to the queue and an error. *)
Definition newPriorityQueue (se : SetupEnv) (db : DB) (name : string)
    (opts : list Option) : M (option PriorityQueue * option error) :=
  let q := mkQueue db name true false in
  let q := apply_options opts q in
  err <- createPriorityTable se db name ;;
  match err with
  | Some err => ret (None, Some (wrap_init_error err))
  | None =>
      RequeueNoAckRows q (setup_now se) ;;;
      ret (Some (mkPriorityQueue q), None)
  end.

(** [func (q *queues) NewPriorityQueue(queueKey string, opts ...Option)] *)
Definition NewPriorityQueue (qs : queues) (se : SetupEnv) (queueKey : string)
    (opts : list Option) : M (option PriorityQueue * option error) :=
  newPriorityQueue se (queues_client qs) queueKey opts.

(** Modelled from the spec: the base queue's constructor [newQueue] is not
    among the sources.  "Configuration option: retain-on-completion (default:
    retain, i.e., rows move to done rather than being deleted) for the base
    queue"; the table is provisioned and the recovery sweep runs. *)
Definition newQueue (se : SetupEnv) (db : DB) (name : string)
    (opts : list Option) : M (option Queue * option error) :=
  let q := apply_options opts (mkQueue db name false false) in
  match create_table_err se with
  | Some err => ret (None, Some (wrap_init_error err))
  | None => RequeueNoAckRows q (setup_now se) ;;; ret (Some q, None)
  end.

(** Modelled from the spec: the options are declared with the base queue.
    "Recognized construction options: {retainOnCompletion: bool} - governs
    whether acknowledged/completed rows are kept (status=done) or deleted." *)
Definition retainOnCompletion (retain : bool) : Option :=
  fun q => mkQueue (client q) (tableName q) (negb retain) (closed q).

Definition acked_by (a : string) (r : Row) : bool :=
  ack_is a r && Status_eqb (status r) processing.

Definition mark_done (a : string) (t : Z) (r : Row) : Row :=
  if acked_by a r
  then mkRow (id r) (data r) done (ack_id r) true (created_at r) t (priority r)
  else r.

(** Modelled from the spec: [Queue.Acknowledge] is declared with the base
    queue.  "Locates the unique row with matching ack_id and
    status=processing; if retention is disabled, deletes it; if enabled, sets
    status=done, acknowledged=true, updated_at=now().  Returns false if no
    matching in-flight row exists." *)
Definition Acknowledge (q : Queue) (t : Z) (ackID : string) : M bool := fun w =>
  let l := rows (store w) in
  if existsb (acked_by ackID) l then
    if removeOnComplete q
    then (true, set_rows (filter (fun r => negb (acked_by ackID r)) l) w)
    else (true, set_rows (map (mark_done ackID t) l) w)
  else (false, w).

(* ------------------------------------------------------------------ *)
(** ** Sequences of operations *)

Inductive Op :=
| OpEnqueue (item : bytes) (prio : Z)
| OpDequeue
| OpDequeueWithAckId.

Inductive OpResult :=
| REnqueue (ok : bool)
| RDequeue (r : option bytes * bool)
| RDequeueWithAckId (r : DequeueResult).

Definition run_op (pq : PriorityQueue) (c : Env * Op) : M OpResult :=
  match snd c with
  | OpEnqueue item prio => ok <- Enqueue pq (fst c) item prio ;; ret (REnqueue ok)
  | OpDequeue => r <- Dequeue pq (fst c) ;; ret (RDequeue r)
  | OpDequeueWithAckId => r <- DequeueWithAckId pq (fst c) ;; ret (RDequeueWithAckId r)
  end.

Fixpoint run_ops (pq : PriorityQueue) (cs : list (Env * Op)) : M (list OpResult) :=
  match cs with
  | [] => ret []
  | c :: cs' => r <- run_op pq c ;; rs <- run_ops pq cs' ;; ret (r :: rs)
  end.

(** What a closed queue answers. *)
Definition closed_answer (o : Op) : OpResult :=
  match o with
  | OpEnqueue _ _ => REnqueue false
  | OpDequeue => RDequeue (None, false)
  | OpDequeueWithAckId => RDequeueWithAckId not_found
  end.

(** An environment in which no call to the store fails. *)
Definition calm (choice : nat) (t : Z) (blocks : string) : Env :=
  mkEnv false false choice false false t blocks.

(* ------------------------------------------------------------------ *)
(** ** Reading results *)

Definition payload_of (r : DequeueResult) : option bytes := fst (fst r).
Definition found (r : DequeueResult) : bool := snd (fst r).
Definition ackid_of (r : DequeueResult) : string := snd r.

(** The committed rows after running [m] in [w]. *)
Definition rows_after {A} (m : M A) (w : World) : list Row := rows (store (snd (m w))).

(** The calls [m] makes when run in [w] with no call recorded yet. *)
Definition calls_of {A} (m : M A) (w : World) : list Call :=
  trace (snd (m (mkWorld (store w) (tx w) []))).

(* ------------------------------------------------------------------ *)
(** ** Vocabulary of the statements *)

(** [r] is served no later than [r']: lower priority number first, then
    earlier [created_at]. *)
Definition key_le (r r' : Row) : Prop :=
  priority r < priority r' \/
  (priority r = priority r' /\ created_at r <= created_at r').

(** What the query may return: a pending row that no pending row precedes. *)
Definition selectable (l : list Row) (r : Row) : Prop :=
  In r l /\ status r = pending /\
  forall r', In r' l -> status r' = pending -> key_le r r'.

(** [ORDER BY priority ASC, created_at ASC] carried out as an insertion
    sort: one of the orders the store may produce. *)
Fixpoint insert_row (r : Row) (l : list Row) : list Row :=
  match l with
  | [] => [r]
  | x :: l' => if key_leb r x then r :: l else x :: insert_row r l'
  end.

Fixpoint sort_rows (l : list Row) : list Row :=
  match l with
  | [] => []
  | x :: l' => insert_row x (sort_rows l')
  end.

(** The statement a dequeue executes on the row it selected. *)
Definition dequeue_stmt (withAckId : bool) (e : Env) (rowid : Z) : stmt :=
  if withAckId
  then UpdateProcessing (cuid_New (cuid_blocks e)) (now e) rowid
  else Delete rowid.

Definition dequeue_ackid (withAckId : bool) (e : Env) : string :=
  if withAckId then cuid_New (cuid_blocks e) else EmptyString.

Definition inserted_row (n : Z) (item : bytes) (t prio : Z) : Row :=
  mkRow n item pending None false t t prio.

(** The same environment with another choice among equally ordered rows. *)
Definition with_tie (choice : nat) (e : Env) : Env :=
  mkEnv (begin_err e) (scan_err e) choice (exec_err e) (commit_err e) (now e)
        (cuid_blocks e).

(** A row is in flight exactly when it carries an ack id. *)
Definition ack_inv (r : Row) : Prop :=
  status r = processing <-> ack_id r <> None.

(** The ordering test of the spec: three enqueues at priorities 5, 1, 5 and
    three dequeues, plain or with ack id. *)
Definition scenario (withAckId : bool) (ea eb ec d1 d2 d3 : Env) (Pa Pb Pc : bytes)
  : list (Env * Op) :=
  let deq := if withAckId then OpDequeueWithAckId else OpDequeue in
  [(ea, OpEnqueue Pa 5); (eb, OpEnqueue Pb 1); (ec, OpEnqueue Pc 5);
   (d1, deq); (d2, deq); (d3, deq)].

(** The claim that equally ordered rows are served by ascending id. *)
Definition ties_broken_by_id : Prop :=
  forall choice l r r',
    query_next choice l = Some r ->
    In r' l -> status r' = pending ->
    priority r' = priority r -> created_at r' = created_at r ->
    id r <= id r'.

(** Concrete data for the examples. *)
Definition tasks : PriorityQueue :=
  mkPriorityQueue (mkQueue (mkDB "queue.db") "tasks" true false).

Definition tasks_closed : PriorityQueue :=
  mkPriorityQueue (mkQueue (mkDB "queue.db") "tasks" true true).

Definition task_A : bytes := [x41].
Definition task_B : bytes := [x42].
Definition task_C : bytes := [x43].

Definition fresh_world : World := mkWorld empty_store None [].

Definition row_1 : Row := mkRow 1 task_A pending None false 100 100 0.
Definition row_2 : Row := mkRow 2 task_B pending None false 100 100 0.
Definition row_3 : Row := mkRow 3 task_C processing (Some "cold"%string) false 90 120 0.

(** Rows 1 and 2 are pending with the same priority and the same
    [created_at]; row 3 is in flight. *)
Definition tied_world : World :=
  mkWorld (mkStore [row_1; row_2; row_3] 4) None [].

(** Two enqueues at the same clock reading with the same priority. *)
Definition tied_enqueues : list (Env * Op) :=
  [(calm 0 100 "", OpEnqueue task_A 0); (calm 0 100 "", OpEnqueue task_B 0)].

Definition after_tied_enqueues : World :=
  snd (run_ops tasks tied_enqueues fresh_world).

(** A store whose Commit fails. *)
Definition commit_fails : Env := mkEnv false false 0 false true 200 "k2".

(** A store that refuses CREATE TABLE, and one that answers every call. *)
Definition table_refused : SetupEnv := mkSetupEnv None (Some (ErrDriver "disk full")) 50.
Definition store_answers : SetupEnv := mkSetupEnv None None 50.

Definition registry : queues := mkQueues (mkDB "queue.db").

Definition mixed_ops : list (Env * Op) :=
  [(calm 0 200 "", OpEnqueue task_C 7); (calm 1 210 "k1", OpDequeueWithAckId);
   (calm 0 220 "", OpDequeue)].

(* ------------------------------------------------------------------ *)
(** ** Vocabulary for sequences of operations *)

(** [id INTEGER PRIMARY KEY DEFAULT nextval(seq)]: the ids of the table are
    pairwise different and the sequence is ahead of all of them. *)
Definition store_wf (s : Store) : Prop :=
  NoDup (map id (rows s)) /\ Forall (fun r => id r < seq s) (rows s).

(** [r] is served strictly before [r']. *)
Definition key_lt (r r' : Row) : Prop :=
  priority r < priority r' \/
  (priority r = priority r' /\ created_at r < created_at r').

(** A run of enqueues: each with its environment, payload and priority. *)
Definition enqueue_ops (items : list (Env * bytes * Z)) : list (Env * Op) :=
  map (fun x => (fst (fst x), OpEnqueue (snd (fst x)) (snd x))) items.

(** The rows such a run inserts when every insert succeeds, the first of
    them with id [n]. *)
Fixpoint inserted_rows (n : Z) (items : list (Env * bytes * Z)) : list Row :=
  match items with
  | [] => []
  | x :: items' =>
      inserted_row n (snd (fst x)) (now (fst (fst x))) (snd x)
        :: inserted_rows (n + 1) items'
  end.

(** A run of dequeues: each with its environment and its [withAckId]. *)
Definition dequeue_op (withAckId : bool) : Op :=
  if withAckId then OpDequeueWithAckId else OpDequeue.

Definition dequeue_ops (ebs : list (Env * bool)) : list (Env * Op) :=
  map (fun eb => (fst eb, dequeue_op (snd eb))) ebs.

(** What a dequeue answers when it delivers row [r], or finds none. *)
Definition delivery (e : Env) (withAckId : bool) (r : option Row) : OpResult :=
  match withAckId, r with
  | false, Some r => RDequeue (Some (data r), true)
  | false, None => RDequeue (None, false)
  | true, Some r => RDequeueWithAckId (Some (data r), true, cuid_New (cuid_blocks e))
  | true, None => RDequeueWithAckId not_found
  end.

(** The answers of a run of dequeues that delivers the rows of [ordered]
    one after the other until they are used up. *)
Fixpoint serve (ebs : list (Env * bool)) (ordered : list Row) : list OpResult :=
  match ebs with
  | [] => []
  | eb :: ebs' =>
      match ordered with
      | [] => delivery (fst eb) (snd eb) None :: serve ebs' []
      | r :: ordered' => delivery (fst eb) (snd eb) (Some r) :: serve ebs' ordered'
      end
  end.

(** The ack ids a run of dequeues with ack id will mint. *)
Definition minted (ebs : list (Env * bool)) : list string :=
  map (fun eb => cuid_New (cuid_blocks (fst eb))) (filter snd ebs).

(** The ack ids handed out in a list of answers. *)
Definition ack_of_result (r : OpResult) : list string :=
  match r with
  | RDequeueWithAckId (_, true, a) => [a]
  | _ => []
  end.

Definition acks_delivered (rs : list OpResult) : list string :=
  flat_map ack_of_result rs.

(** [seqName := fmt.Sprintf("%s_id_seq", tableName)] and
    [createSeqSQL := fmt.Sprintf("CREATE SEQUENCE IF NOT EXISTS %s START 1;", seqName)]
    of [createPriorityTable]. *)
Definition seqName (name : string) : string := (name ++ "_id_seq")%string.

Definition createSeqSQL (name : string) : string :=
  ("CREATE SEQUENCE IF NOT EXISTS " ++ seqName name ++ " START 1;")%string.

(** Concrete runs for the examples: three items of one priority at
    advancing clock readings, three items of mixed priorities, and four
    dequeues, two of them with ack id. *)
Definition fifo_items : list (Env * bytes * Z) :=
  [(calm 0 100 "", task_A, 5); (calm 0 200 "", task_B, 5); (calm 0 300 "", task_C, 5)].

Definition mixed_items : list (Env * bytes * Z) :=
  [(calm 0 100 "", task_A, 5); (calm 0 200 "", task_B, 1); (calm 0 300 "", task_C, 5)].

Definition four_dequeues : list (Env * bool) :=
  [(calm 0 400 "k1", true); (calm 1 500 "", false);
   (calm 2 600 "k3", true); (calm 0 700 "", false)].

(* ------------------------------------------------------------------ *)
(** ** Proof tools *)

Ltac unfold_calls :=
  unfold with_deferred_rollback, bind, ret, Begin, QueryRowScan, Exec, Commit,
    Rollback, log, set_tx, set_rows, set_seq in *.

Ltac unfold_ops :=
  unfold rows_after, calls_of, run_op, DequeueWithAckId, Dequeue, Enqueue,
    dequeueInternal, not_found, payload_of, found, ackid_of in *;
  unfold_calls.

Ltac break_match :=
  match goal with
  | |- context [match ?x with _ => _ end] =>
      lazymatch x with
      | context [match _ with _ => _ end] => fail
      | _ => destruct x eqn:?
      end
  | |- context [if ?x then _ else _] =>
      lazymatch x with
      | context [if _ then _ else _] => fail
      | _ => destruct x eqn:?
      end
  end.

Ltac break_all := repeat (break_match; simpl in *; try congruence).

(* ------------------------------------------------------------------ *)
(** ** A closed queue *)

Lemma Enqueue_closed pq e item prio w :
  closed (base pq) = true -> Enqueue pq e item prio w = (false, w).
Proof. intros H. unfold Enqueue. rewrite H. reflexivity. Qed.

Lemma dequeueInternal_closed pq e b w :
  closed (base pq) = true -> dequeueInternal pq e b w = (not_found, w).
Proof. intros H. unfold dequeueInternal. rewrite H. reflexivity. Qed.

Lemma run_op_closed pq c w :
  closed (base pq) = true -> run_op pq c w = (closed_answer (snd c), w).
Proof.
  intros H. destruct c as [e [item prio | | ]]; unfold run_op; simpl;
    unfold Dequeue, DequeueWithAckId, bind;
    rewrite ?Enqueue_closed, ?dequeueInternal_closed by assumption; reflexivity.
Qed.

(** C7. On a queue whose closed flag is set, every Enqueue returns false and
    every Dequeue and DequeueWithAckId returns not found (nil payload,
    found=false, empty ack id), whatever the store would answer, and so does
    every later call in any sequence of calls; the world is left as it was:
    no row is changed, no transaction is opened and no call to the store is
    made, so the table is not read either. *)
Theorem closed_queue_is_inert pq :
  closed (base pq) = true ->
  (forall e item prio w, Enqueue pq e item prio w = (false, w)) /\
  (forall e w, Dequeue pq e w = ((None, false), w)) /\
  (forall e w, DequeueWithAckId pq e w = ((None, false, EmptyString), w)) /\
  (forall (cs : list (Env * Op)) w,
      run_ops pq cs w = (map (fun c => closed_answer (snd c)) cs, w)).
Proof.
  intros H. repeat split.
  - intros. now apply Enqueue_closed.
  - intros. unfold Dequeue, bind. now rewrite dequeueInternal_closed.
  - intros. now apply dequeueInternal_closed.
  - intros cs. induction cs as [| c cs IH]; intros w; simpl.
    + reflexivity.
    + unfold bind. rewrite run_op_closed by assumption.
      fold (@bind (list OpResult) (list OpResult)). unfold bind.
      rewrite IH. reflexivity.
Qed.

(* ------------------------------------------------------------------ *)
(** ** Failure leaves the table alone *)

Lemma Enqueue_false_rows pq e item prio w :
  fst (Enqueue pq e item prio w) = false ->
  rows_after (Enqueue pq e item prio) w = rows (store w).
Proof.
  unfold_ops. break_all.
Qed.

Lemma dequeueInternal_not_found_rows pq e b w :
  found (fst (dequeueInternal pq e b w)) = false ->
  rows_after (dequeueInternal pq e b) w = rows (store w).
Proof.
  unfold_ops. break_all.
Qed.

Lemma Enqueue_failing_step pq e item prio w :
  begin_err e || exec_err e || commit_err e = true ->
  fst (Enqueue pq e item prio w) = false.
Proof.
  unfold_ops. destruct (begin_err e), (exec_err e), (commit_err e); simpl;
    try discriminate; intros _; break_all.
Qed.

Lemma dequeueInternal_failing_step pq e b w :
  begin_err e || scan_err e || exec_err e || commit_err e = true ->
  fst (dequeueInternal pq e b w) = not_found.
Proof.
  unfold_ops.
  destruct (begin_err e), (scan_err e), (exec_err e), (commit_err e); simpl;
    try discriminate; intros _; break_all.
Qed.

(* ------------------------------------------------------------------ *)
(** ** The selection query *)

Lemma key_leb_le r r' : key_leb r r' = true <-> key_le r r'.
Proof.
  unfold key_leb, key_le.
  rewrite orb_true_iff, andb_true_iff, Z.ltb_lt, Z.eqb_eq, Z.leb_le. tauto.
Qed.

Lemma key_le_refl r : key_le r r.
Proof. unfold key_le. lia. Qed.

Lemma key_le_trans r1 r2 r3 : key_le r1 r2 -> key_le r2 r3 -> key_le r1 r3.
Proof. unfold key_le. lia. Qed.

Lemma key_le_total r r' : key_le r r' \/ key_le r' r.
Proof. unfold key_le. lia. Qed.

Lemma least_row_exists (l : list Row) :
  l <> [] -> exists r, In r l /\ forall r', In r' l -> key_le r r'.
Proof.
  induction l as [| x l IH]; [congruence |]. intros _.
  destruct l as [| y l].
  - exists x. split; [now left |]. intros r' [<- | []]. apply key_le_refl.
  - destruct IH as (m & Hm & Hmin); [congruence |].
    destruct (key_le_total x m) as [Hxm | Hmx].
    + exists x. split; [now left |].
      intros r' [<- | Hr']; [apply key_le_refl |].
      eapply key_le_trans; [exact Hxm | now apply Hmin].
    + exists m. split; [now right |].
      intros r' [<- | Hr']; [exact Hmx | now apply Hmin].
Qed.

Lemma first_in_order_In r l :
  In r (first_in_order l) <-> In r l /\ forall r', In r' l -> key_le r r'.
Proof.
  unfold first_in_order. rewrite filter_In, forallb_forall.
  split; intros [H1 H2]; split; auto; intros r' Hr'.
  - apply key_leb_le. auto.
  - apply key_leb_le. auto.
Qed.

Lemma first_in_order_nonempty l : l <> [] -> first_in_order l <> [].
Proof.
  intros H. destruct (least_row_exists H) as (r & Hr & Hmin).
  assert (Hin : In r (first_in_order l)) by (apply first_in_order_In; auto).
  intros E. rewrite E in Hin. exact Hin.
Qed.

Lemma pending_rows_In r l :
  In r (pending_rows l) <-> In r l /\ status r = pending.
Proof.
  unfold pending_rows, is_pending. rewrite filter_In.
  destruct (status r); simpl; intuition congruence.
Qed.

Lemma selectable_iff l r :
  selectable l r <-> In r (first_in_order (pending_rows l)).
Proof.
  unfold selectable. rewrite first_in_order_In, pending_rows_In. split.
  - intros (H1 & H2 & H3). repeat split; auto.
    intros r' Hr'. apply pending_rows_In in Hr'. destruct Hr'. auto.
  - intros ((H1 & H2) & H3). repeat split; auto.
    intros r' Hr' Hp. apply H3. apply pending_rows_In. auto.
Qed.

Lemma query_next_sound choice l r :
  query_next choice l = Some r -> selectable l r.
Proof.
  unfold query_next. intros H. apply nth_error_In in H.
  now apply selectable_iff.
Qed.

Lemma query_next_complete l r :
  selectable l r -> exists choice, query_next choice l = Some r.
Proof.
  intros H. apply selectable_iff in H.
  destruct (In_nth_error _ _ H) as [n Hn]. exists n.
  unfold query_next.
  assert (Hlt : (n < List.length (first_in_order (pending_rows l)))%nat).
  { apply nth_error_Some. congruence. }
  rewrite Nat.mod_small by exact Hlt. exact Hn.
Qed.

Lemma query_next_None choice l :
  query_next choice l = None <-> pending_rows l = [].
Proof.
  unfold query_next. split.
  - intros H. destruct (pending_rows l) as [| x p] eqn:E; [reflexivity |].
    exfalso.
    assert (Hne : first_in_order (x :: p) <> []) by (apply first_in_order_nonempty; congruence).
    apply nth_error_None in H.
    destruct (first_in_order (x :: p)) as [| y c]; [congruence |].
    pose proof (Nat.mod_upper_bound choice (List.length (y :: c))) as Hb.
    simpl in *. lia.
  - intros ->. simpl. now destruct choice.
Qed.

Lemma query_next_Some_of_pending choice l r :
  In r l -> status r = pending -> exists r0, query_next choice l = Some r0.
Proof.
  intros Hin Hp. destruct (query_next choice l) as [r0 |] eqn:E; [eauto |].
  apply query_next_None in E.
  assert (H : In r (pending_rows l)) by (apply pending_rows_In; auto).
  rewrite E in H. destruct H.
Qed.

(** The rows [query_next] may return are the rows that come first in some
    ordering of the pending rows by (priority, created_at). *)

Lemma insert_row_perm r l : Permutation (r :: l) (insert_row r l).
Proof.
  induction l as [| x l IH]; simpl; [reflexivity |].
  destruct (key_leb r x); [reflexivity |].
  rewrite perm_swap. now constructor.
Qed.

Lemma sort_rows_perm l : Permutation l (sort_rows l).
Proof.
  induction l as [| x l IH]; simpl; [constructor |].
  rewrite <- insert_row_perm. now constructor.
Qed.

Lemma insert_row_sorted r l :
  StronglySorted key_le l -> StronglySorted key_le (insert_row r l).
Proof.
  induction l as [| x l IH]; simpl; intros Hs.
  - repeat constructor.
  - apply StronglySorted_inv in Hs. destruct Hs as [Hs Hx].
    destruct (key_leb r x) eqn:E.
    + apply key_leb_le in E. constructor; [now constructor |].
      constructor; [exact E |].
      eapply Forall_impl; [| exact Hx]. intros y Hy. eapply key_le_trans; eauto.
    + assert (Hxr : key_le x r).
      { destruct (key_le_total x r) as [H | H]; [exact H |].
        apply key_leb_le in H. congruence. }
      constructor; [now apply IH |].
      eapply Permutation_Forall; [apply insert_row_perm |]. now constructor.
Qed.

Lemma sort_rows_sorted l : StronglySorted key_le (sort_rows l).
Proof.
  induction l as [| x l IH]; simpl; [constructor | now apply insert_row_sorted].
Qed.

Lemma selectable_is_first_of_an_ordering l r :
  selectable l r <->
  exists ordered,
    Permutation (pending_rows l) ordered /\
    StronglySorted key_le ordered /\
    hd_error ordered = Some r.
Proof.
  split.
  - intros (Hin & Hp & Hmin).
    assert (Hr : In r (pending_rows l)) by (apply pending_rows_In; auto).
    destruct (in_split _ _ Hr) as (l1 & l2 & E).
    exists (r :: sort_rows (l1 ++ l2)). split; [| split; [| reflexivity]].
    + rewrite E. rewrite <- Permutation_middle. constructor. apply sort_rows_perm.
    + constructor; [apply sort_rows_sorted |].
      eapply Permutation_Forall; [apply sort_rows_perm |].
      apply Forall_forall. intros x Hx.
      assert (Hxp : In x (pending_rows l)).
      { rewrite E. apply in_app_iff in Hx. apply in_app_iff. simpl. tauto. }
      apply pending_rows_In in Hxp. destruct Hxp. auto.
  - intros (ordered & Hperm & Hsort & Hhd).
    destruct ordered as [| x t]; [discriminate |]. simpl in Hhd.
    injection Hhd as ->.
    assert (Hr : In r (pending_rows l)).
    { eapply Permutation_in; [symmetry; exact Hperm | now left]. }
    apply pending_rows_In in Hr. destruct Hr as [Hin Hp].
    repeat split; auto. intros r' Hr' Hp'.
    assert (Hin' : In r' (r :: t)).
    { eapply Permutation_in; [exact Hperm |]. apply pending_rows_In. auto. }
    apply StronglySorted_inv in Hsort. destruct Hsort as [_ Hall].
    destruct Hin' as [<- | Ht]; [apply key_le_refl |].
    rewrite Forall_forall in Hall. auto.
Qed.

(* ------------------------------------------------------------------ *)
(** ** What each operation does when the store answers *)

Lemma healthy_fields e :
  healthy e = true ->
  begin_err e = false /\ scan_err e = false /\ exec_err e = false /\ commit_err e = false.
Proof.
  unfold healthy. rewrite !andb_true_iff, !negb_true_iff. tauto.
Qed.

Lemma Enqueue_ok pq e item prio w :
  closed (base pq) = false ->
  healthy e = true ->
  existsb (has_id (seq (store w))) (rows (store w)) = false ->
  Enqueue pq e item prio w =
    (true,
     mkWorld (mkStore (rows (store w) ++ [inserted_row (seq (store w)) item (now e) prio])
                      (seq (store w) + 1))
             None
             (trace w ++ [CBegin; CExec (Insert item pending (now e) (now e) prio); CCommit])).
Proof.
  intros Hc He Hpk. apply healthy_fields in He. destruct He as (Hb & _ & Hx & Hm).
  unfold_ops. rewrite Hc, Hb. simpl. rewrite Hx. simpl. rewrite Hpk. simpl.
  rewrite Hm. simpl. unfold inserted_row. rewrite <- !app_assoc. reflexivity.
Qed.

Lemma dequeueInternal_ok pq e b w r :
  closed (base pq) = false ->
  healthy e = true ->
  query_next (tie e) (rows (store w)) = Some r ->
  (b = true -> ack_conflict (cuid_New (cuid_blocks e)) (id r) (rows (store w)) = false) ->
  dequeueInternal pq e b w =
    ((Some (data r), true, dequeue_ackid b e),
     mkWorld (mkStore (if b
                       then map (mark_processing (cuid_New (cuid_blocks e)) (now e) (id r))
                                (rows (store w))
                       else filter (fun r' => negb (has_id (id r) r')) (rows (store w)))
                      (seq (store w)))
             None
             (trace w ++ [CBegin; CQuery; CExec (dequeue_stmt b e (id r)); CCommit])).
Proof.
  intros Hc He Hq Hu. apply healthy_fields in He. destruct He as (Hb & Hs & Hx & Hm).
  unfold_ops. rewrite Hc, Hb. simpl. rewrite Hs, Hq. simpl.
  destruct b; simpl; rewrite Hx; simpl.
  - rewrite (Hu eq_refl). simpl. rewrite Hm. simpl.
    rewrite <- !app_assoc. reflexivity.
  - rewrite Hm. simpl. rewrite <- !app_assoc. reflexivity.
Qed.

Lemma dequeueInternal_no_pending pq e b w :
  pending_rows (rows (store w)) = [] ->
  fst (dequeueInternal pq e b w) = not_found /\
  rows_after (dequeueInternal pq e b) w = rows (store w).
Proof.
  intros Hp. pose proof (proj2 (query_next_None (tie e) (rows (store w))) Hp) as Hq.
  unfold_ops. destruct (closed (base pq)); simpl; [auto |].
  destruct (begin_err e); simpl; [auto |].
  destruct (scan_err e); simpl; [auto |].
  rewrite Hq. simpl. auto.
Qed.

Lemma dequeueInternal_found_inv pq e b w :
  found (fst (dequeueInternal pq e b w)) = true ->
  exists r,
    query_next (tie e) (rows (store w)) = Some r /\
    closed (base pq) = false /\ healthy e = true /\
    (b = true -> ack_conflict (cuid_New (cuid_blocks e)) (id r) (rows (store w)) = false).
Proof.
  unfold healthy. unfold_ops.
  destruct (closed (base pq)); simpl; [discriminate |].
  destruct (begin_err e); simpl; [discriminate |].
  destruct (scan_err e); simpl; [discriminate |].
  destruct (query_next (tie e) (rows (store w))) as [r |]; simpl; [| discriminate].
  destruct b; simpl; destruct (exec_err e); simpl; try discriminate.
  - destruct (ack_conflict _ _ _) eqn:E; simpl; [discriminate |].
    destruct (commit_err e); simpl; [discriminate |].
    intros _. exists r. auto.
  - destruct (commit_err e); simpl; [discriminate |].
    intros _. exists r. repeat split; auto. discriminate.
Qed.

Lemma Dequeue_unfold pq e w :
  Dequeue pq e w =
    (fst (fst (dequeueInternal pq e false w)), snd (dequeueInternal pq e false w)).
Proof.
  unfold Dequeue, bind, ret. destruct (dequeueInternal pq e false w) as [[[p f] a] w'].
  reflexivity.
Qed.

Lemma query_next_unique choice l r :
  In r l -> status r = pending ->
  (forall r', selectable l r' -> r' = r) ->
  query_next choice l = Some r.
Proof.
  intros Hin Hp Hu.
  destruct (query_next_Some_of_pending choice l r Hin Hp) as [r0 H0].
  rewrite H0. f_equal. apply Hu. eapply query_next_sound; eauto.
Qed.

(* ------------------------------------------------------------------ *)
(** ** Running sequences of operations *)

Lemma run_ops_cons pq c cs w :
  run_ops pq (c :: cs) w =
    (fst (run_op pq c w) :: fst (run_ops pq cs (snd (run_op pq c w))),
     snd (run_ops pq cs (snd (run_op pq c w)))).
Proof.
  simpl. unfold bind, ret. destruct (run_op pq c w) as [r w'].
  simpl. destruct (run_ops pq cs w') as [rs w'']. reflexivity.
Qed.

Lemma run_op_Enqueue pq e item prio w :
  run_op pq (e, OpEnqueue item prio) w =
    (REnqueue (fst (Enqueue pq e item prio w)), snd (Enqueue pq e item prio w)).
Proof.
  unfold run_op, bind, ret. simpl. destruct (Enqueue pq e item prio w). reflexivity.
Qed.

Lemma run_op_Dequeue pq e w :
  run_op pq (e, OpDequeue) w =
    (RDequeue (fst (fst (dequeueInternal pq e false w))),
     snd (dequeueInternal pq e false w)).
Proof.
  unfold run_op, bind, ret. simpl. rewrite Dequeue_unfold. reflexivity.
Qed.

Lemma run_op_DequeueWithAckId pq e w :
  run_op pq (e, OpDequeueWithAckId) w =
    (RDequeueWithAckId (fst (dequeueInternal pq e true w)),
     snd (dequeueInternal pq e true w)).
Proof.
  unfold run_op, DequeueWithAckId, bind, ret. simpl.
  destruct (dequeueInternal pq e true w). reflexivity.
Qed.

Lemma cuid_New_inj x y : cuid_New x = cuid_New y -> x = y.
Proof. unfold cuid_New. congruence. Qed.

Lemma cuid_New_nonempty blocks : cuid_New blocks <> EmptyString.
Proof. unfold cuid_New. discriminate. Qed.

(** Decide the id and ack id tests on rows written out in full. *)
Ltac zb :=
  repeat match goal with
    | |- context [Z.eqb ?a ?b] => destruct (Z.eqb_spec a b); try lia
    | |- context [String.eqb ?a ?b] =>
        destruct (String.eqb_spec a b);
        try (exfalso;
             match goal with
             | H : cuid_New _ = cuid_New _ |- _ => apply cuid_New_inj in H; congruence
             end)
    end.

Ltac proj := cbn [rows store seq tx trace fst snd app].

Ltac row_cbn :=
  cbv [existsb has_id inserted_row id orb andb negb filter map mark_processing
       ack_conflict ack_is ack_id data ack created_at updated_at priority status
       dequeue_ackid];
  proj.

Ltac row_side := row_cbn; zb; row_cbn; try reflexivity.

(** The query has one possible answer: show that every selectable row is
    the expected one by comparing it with each row of the table. *)
Ltac pick_unique :=
  apply query_next_unique;
  [ simpl; tauto
  | reflexivity
  | let r' := fresh "r'" in
    let Hin := fresh "Hin" in
    let Hp := fresh "Hp" in
    let Hmin := fresh "Hmin" in
    intros r' (Hin & Hp & Hmin);
    apply (proj2 (Forall_forall (fun x => status x = pending -> key_le r' x) _)) in Hmin;
    repeat match goal with
      | H : Forall _ (_ :: _) |- _ => inversion H; clear H; subst
      end;
    simpl in Hin;
    repeat match goal with
      | H : _ \/ _ |- _ => destruct H
      | H : False |- _ => destruct H
      end;
    subst; unfold key_le in *; simpl in *;
    try reflexivity; try congruence; exfalso;
    repeat match goal with
      | H : pending = pending -> _ |- _ => specialize (H eq_refl)
      | H : processing = pending -> _ |- _ => clear H
      end;
    lia ].

Lemma scenario_plain pq ea eb ec d1 d2 d3 Pa Pb Pc w :
  closed (base pq) = false ->
  forallb healthy [ea; eb; ec; d1; d2; d3] = true ->
  rows (store w) = [] ->
  now ea < now ec ->
  fst (run_ops pq (scenario false ea eb ec d1 d2 d3 Pa Pb Pc) w) =
    [REnqueue true; REnqueue true; REnqueue true;
     RDequeue (Some Pb, true); RDequeue (Some Pa, true); RDequeue (Some Pc, true)].
Proof.
  intros Hc Hh Hw Ht. simpl in Hh. rewrite !andb_true_iff in Hh.
  destruct Hh as (Ha & Hb & Hcc & H1 & H2 & H3 & _).
  destruct w as [[rs s] t tr]. simpl in Hw. subst rs.
  unfold scenario.
  rewrite run_ops_cons, run_op_Enqueue, Enqueue_ok; [| auto | auto | row_side]. proj.
  rewrite run_ops_cons, run_op_Enqueue, Enqueue_ok; [| auto | auto | row_side]. proj.
  rewrite run_ops_cons, run_op_Enqueue, Enqueue_ok; [| auto | auto | row_side]. proj.
  rewrite run_ops_cons, run_op_Dequeue.
  rewrite (@dequeueInternal_ok pq d1 false _ (inserted_row (s + 1) Pb (now eb) 1));
    [| auto | auto | proj; pick_unique | discriminate ].
  proj. row_side.
  rewrite run_ops_cons, run_op_Dequeue.
  rewrite (@dequeueInternal_ok pq d2 false _ (inserted_row s Pa (now ea) 5));
    [| auto | auto | proj; pick_unique | discriminate ].
  proj. row_side.
  rewrite run_ops_cons, run_op_Dequeue.
  rewrite (@dequeueInternal_ok pq d3 false _ (inserted_row (s + 1 + 1) Pc (now ec) 5));
    [| auto | auto | proj; pick_unique | discriminate ].
  proj. row_side.
Qed.

Lemma scenario_with_ack pq ea eb ec d1 d2 d3 Pa Pb Pc w :
  closed (base pq) = false ->
  forallb healthy [ea; eb; ec; d1; d2; d3] = true ->
  rows (store w) = [] ->
  now ea < now ec ->
  cuid_blocks d1 <> cuid_blocks d2 ->
  cuid_blocks d1 <> cuid_blocks d3 ->
  cuid_blocks d2 <> cuid_blocks d3 ->
  fst (run_ops pq (scenario true ea eb ec d1 d2 d3 Pa Pb Pc) w) =
    [REnqueue true; REnqueue true; REnqueue true;
     RDequeueWithAckId (Some Pb, true, cuid_New (cuid_blocks d1));
     RDequeueWithAckId (Some Pa, true, cuid_New (cuid_blocks d2));
     RDequeueWithAckId (Some Pc, true, cuid_New (cuid_blocks d3))].
Proof.
  intros Hc Hh Hw Ht N12 N13 N23. simpl in Hh. rewrite !andb_true_iff in Hh.
  destruct Hh as (Ha & Hb & Hcc & H1 & H2 & H3 & _).
  destruct w as [[rs s] t tr]. simpl in Hw. subst rs.
  unfold scenario.
  rewrite run_ops_cons, run_op_Enqueue, Enqueue_ok; [| auto | auto | row_side]. proj.
  rewrite run_ops_cons, run_op_Enqueue, Enqueue_ok; [| auto | auto | row_side]. proj.
  rewrite run_ops_cons, run_op_Enqueue, Enqueue_ok; [| auto | auto | row_side]. proj.
  rewrite run_ops_cons, run_op_DequeueWithAckId.
  rewrite (@dequeueInternal_ok pq d1 true _ (inserted_row (s + 1) Pb (now eb) 1));
    [| auto | auto | proj; pick_unique | intros _; proj; row_side ].
  proj. row_side.
  rewrite run_ops_cons, run_op_DequeueWithAckId.
  rewrite (@dequeueInternal_ok pq d2 true _ (inserted_row s Pa (now ea) 5));
    [| auto | auto | proj; pick_unique | intros _; proj; row_side ].
  proj. row_side.
  rewrite run_ops_cons, run_op_DequeueWithAckId.
  rewrite (@dequeueInternal_ok pq d3 true _ (inserted_row (s + 1 + 1) Pc (now ec) 5));
    [| auto | auto | proj; pick_unique | intros _; proj; row_side ].
  proj. row_side.
Qed.

(** A dequeue that finds a row found one the query may return, hands out
    its payload and changes that row. *)
Lemma dequeueInternal_found pq e b w :
  found (fst (dequeueInternal pq e b w)) = true ->
  exists r,
    selectable (rows (store w)) r /\
    fst (dequeueInternal pq e b w) = (Some (data r), true, dequeue_ackid b e) /\
    rows_after (dequeueInternal pq e b) w =
      (if b
       then map (mark_processing (cuid_New (cuid_blocks e)) (now e) (id r)) (rows (store w))
       else filter (fun r' => negb (has_id (id r) r')) (rows (store w))).
Proof.
  intros H. destruct (dequeueInternal_found_inv _ _ _ _ H) as (r & Hq & Hc & He & Hu).
  exists r. split; [eapply query_next_sound; eauto |].
  unfold rows_after. rewrite (@dequeueInternal_ok pq e b w r Hc He Hq Hu). simpl. auto.
Qed.

Lemma no_pending_rows l :
  (forall r, In r l -> status r <> pending) -> pending_rows l = [].
Proof.
  intros H. destruct (pending_rows l) as [| x p] eqn:E; [reflexivity |].
  assert (Hx : In x (pending_rows l)) by (rewrite E; now left).
  apply pending_rows_In in Hx. destruct Hx as [Hin Hp]. now apply H in Hin.
Qed.

Lemma fresh_no_conflict a i l :
  (forall r, In r l -> ack_id r <> Some a) -> ack_conflict a i l = false.
Proof.
  intros H. unfold ack_conflict. apply andb_false_iff. right.
  apply not_true_is_false. intros E. apply existsb_exists in E.
  destruct E as (r & Hin & Hr). apply andb_true_iff in Hr. destruct Hr as [Hr _].
  unfold ack_is in Hr. destruct (ack_id r) as [b |] eqn:Eb; [| discriminate].
  apply String.eqb_eq in Hr. subst b. exact (H r Hin Eb).
Qed.

Lemma mark_processing_hit a t r :
  mark_processing a t (id r) r =
    mkRow (id r) (data r) processing (Some a) (ack r) (created_at r) t (priority r).
Proof. unfold mark_processing, has_id. now rewrite Z.eqb_refl. Qed.

(* ------------------------------------------------------------------ *)
(** ** Selection order *)

(** C1. When Dequeue or DequeueWithAckId finds a row, it is a pending row
    with the lowest priority number and, among those, the earliest
    created_at; its payload is returned and it is the row deleted (Dequeue)
    or marked (DequeueWithAckId).  On a fresh open queue whose store calls
    succeed, enqueuing P_a at priority 5, P_b at priority 1 and P_c at
    priority 5 with a later created_at than P_a, then dequeuing three times
    (plainly, or with ack ids that differ) returns P_b, P_a, P_c. *)
Theorem dequeue_serves_lowest_priority_then_oldest pq :
  (forall e w,
      snd (fst (Dequeue pq e w)) = true ->
      exists r,
        selectable (rows (store w)) r /\
        fst (fst (Dequeue pq e w)) = Some (data r) /\
        rows_after (Dequeue pq e) w =
          filter (fun r' => negb (has_id (id r) r')) (rows (store w))) /\
  (forall e w,
      found (fst (DequeueWithAckId pq e w)) = true ->
      exists r,
        selectable (rows (store w)) r /\
        payload_of (fst (DequeueWithAckId pq e w)) = Some (data r) /\
        rows_after (DequeueWithAckId pq e) w =
          map (mark_processing (ackid_of (fst (DequeueWithAckId pq e w))) (now e) (id r))
              (rows (store w))) /\
  (forall ea eb ec d1 d2 d3 Pa Pb Pc w,
      closed (base pq) = false ->
      forallb healthy [ea; eb; ec; d1; d2; d3] = true ->
      rows (store w) = [] ->
      now ea < now ec ->
      fst (run_ops pq (scenario false ea eb ec d1 d2 d3 Pa Pb Pc) w) =
        [REnqueue true; REnqueue true; REnqueue true;
         RDequeue (Some Pb, true); RDequeue (Some Pa, true);
         RDequeue (Some Pc, true)]) /\
  (forall ea eb ec d1 d2 d3 Pa Pb Pc w,
      closed (base pq) = false ->
      forallb healthy [ea; eb; ec; d1; d2; d3] = true ->
      rows (store w) = [] ->
      now ea < now ec ->
      cuid_blocks d1 <> cuid_blocks d2 ->
      cuid_blocks d1 <> cuid_blocks d3 ->
      cuid_blocks d2 <> cuid_blocks d3 ->
      fst (run_ops pq (scenario true ea eb ec d1 d2 d3 Pa Pb Pc) w) =
        [REnqueue true; REnqueue true; REnqueue true;
         RDequeueWithAckId (Some Pb, true, cuid_New (cuid_blocks d1));
         RDequeueWithAckId (Some Pa, true, cuid_New (cuid_blocks d2));
         RDequeueWithAckId (Some Pc, true, cuid_New (cuid_blocks d3))]).
Proof.
  repeat split.
  - intros e w H. rewrite Dequeue_unfold in H. simpl in H.
    destruct (@dequeueInternal_found pq e false w H) as (r & Hs & Hr & Hrows).
    exists r. split; [exact Hs |]. unfold rows_after in *.
    rewrite Dequeue_unfold. simpl. rewrite Hr. simpl. auto.
  - intros e w H. unfold DequeueWithAckId in *.
    destruct (@dequeueInternal_found pq e true w H) as (r & Hs & Hr & Hrows).
    exists r. split; [exact Hs |]. rewrite Hrows, Hr.
    unfold payload_of, ackid_of. simpl. auto.
  - intros. now apply scenario_plain.
  - intros. now apply scenario_with_ack.
Qed.

(* ------------------------------------------------------------------ *)
(** ** Dequeue with acknowledgment *)

Lemma no_conflict_unique a i l r y :
  ack_conflict a i l = false ->
  In r l -> id r = i ->
  In y l -> ack_id y = Some a -> id y = i.
Proof.
  unfold ack_conflict. intros H Hr Hi Hy Ha.
  apply andb_false_iff in H. destruct H as [H | H].
  - assert (E : existsb (has_id i) l = true).
    { apply existsb_exists. exists r. split; [exact Hr |].
      unfold has_id. now apply Z.eqb_eq. }
    congruence.
  - destruct (Z.eq_dec (id y) i) as [E | N]; [exact E |]. exfalso.
    assert (E : existsb (fun r => ack_is a r && negb (has_id i r)) l = true).
    { apply existsb_exists. exists y. split; [exact Hy |].
      unfold ack_is, has_id. rewrite Ha, String.eqb_refl.
      apply Z.eqb_neq in N. now rewrite N. }
    congruence.
Qed.

Lemma mark_processing_id a t i r : id (mark_processing a t i r) = id r.
Proof. unfold mark_processing. now destruct (has_id i r). Qed.

Lemma DequeueWithAckId_ack_unique pq e w :
  found (fst (DequeueWithAckId pq e w)) = true ->
  exists r,
    selectable (rows (store w)) r /\
    fst (DequeueWithAckId pq e w) = (Some (data r), true, cuid_New (cuid_blocks e)) /\
    forall r', In r' (rows_after (DequeueWithAckId pq e) w) ->
               ack_id r' = Some (cuid_New (cuid_blocks e)) -> id r' = id r.
Proof.
  unfold DequeueWithAckId. intros H.
  destruct (dequeueInternal_found_inv _ _ _ _ H) as (r & Hq & Hc & He & Hu).
  pose proof (query_next_sound _ _ Hq) as Hs.
  exists r. unfold rows_after.
  rewrite (@dequeueInternal_ok pq e true w r Hc He Hq Hu). simpl.
  split; [exact Hs |]. split; [reflexivity |].
  intros r' Hin Ha. apply in_map_iff in Hin. destruct Hin as (y & <- & Hy).
  rewrite mark_processing_id. unfold mark_processing in Ha.
  destruct (has_id (id r) y) eqn:E.
  - now apply Z.eqb_eq in E.
  - eapply no_conflict_unique; [exact (Hu eq_refl) | apply Hs | reflexivity | exact Hy | exact Ha].
Qed.

Lemma DequeueWithAckId_ok pq e w r0 :
  closed (base pq) = false ->
  healthy e = true ->
  In r0 (rows (store w)) -> status r0 = pending ->
  (forall r', In r' (rows (store w)) -> ack_id r' <> Some (cuid_New (cuid_blocks e))) ->
  exists r,
    selectable (rows (store w)) r /\
    fst (DequeueWithAckId pq e w) = (Some (data r), true, cuid_New (cuid_blocks e)) /\
    cuid_New (cuid_blocks e) <> EmptyString /\
    rows_after (DequeueWithAckId pq e) w =
      map (mark_processing (cuid_New (cuid_blocks e)) (now e) (id r)) (rows (store w)) /\
    In (mkRow (id r) (data r) processing (Some (cuid_New (cuid_blocks e))) (ack r)
              (created_at r) (now e) (priority r))
       (rows_after (DequeueWithAckId pq e) w) /\
    List.length (rows_after (DequeueWithAckId pq e) w) = List.length (rows (store w)) /\
    calls_of (DequeueWithAckId pq e) w =
      [CBegin; CQuery;
       CExec (UpdateProcessing (cuid_New (cuid_blocks e)) (now e) (id r)); CCommit].
Proof.
  intros Hc He Hin Hp Hfresh.
  destruct (query_next_Some_of_pending (tie e) _ _ Hin Hp) as [r Hq].
  pose proof (query_next_sound _ _ Hq) as Hs.
  assert (Hu : true = true ->
               ack_conflict (cuid_New (cuid_blocks e)) (id r) (rows (store w)) = false)
    by (intros _; now apply fresh_no_conflict).
  exists r. unfold DequeueWithAckId, rows_after, calls_of.
  rewrite (@dequeueInternal_ok pq e true w r Hc He Hq Hu).
  rewrite (@dequeueInternal_ok pq e true (mkWorld (store w) (tx w) []) r Hc He Hq Hu).
  simpl.
  split; [exact Hs |]. split; [reflexivity |].
  split; [apply cuid_New_nonempty |]. split; [reflexivity |].
  split; [rewrite <- mark_processing_hit; apply in_map; apply Hs |].
  split; [apply length_map | reflexivity].
Qed.

(** C2. On an open queue whose table holds a pending row, when the calls to
    the store succeed and cuid.New() yields an id no row carries,
    DequeueWithAckId returns found=true, that ack id, which is not the empty
    string, and the payload of the row the query selected; the row is not
    deleted: one UPDATE inside the one transaction (Begin, query, UPDATE,
    Commit) sets its status to processing and stores the ack id on it, every
    other row is as before, and the table has as many rows as before.
    Whenever DequeueWithAckId answers found=true, the ack id it returns is
    stored on no row but the selected one. *)
Theorem DequeueWithAckId_marks_processing pq e w :
  (closed (base pq) = false ->
   healthy e = true ->
   (exists r0, In r0 (rows (store w)) /\ status r0 = pending) ->
   (forall r', In r' (rows (store w)) -> ack_id r' <> Some (cuid_New (cuid_blocks e))) ->
   exists r,
     selectable (rows (store w)) r /\
     fst (DequeueWithAckId pq e w) = (Some (data r), true, cuid_New (cuid_blocks e)) /\
     cuid_New (cuid_blocks e) <> EmptyString /\
     rows_after (DequeueWithAckId pq e) w =
       map (mark_processing (cuid_New (cuid_blocks e)) (now e) (id r)) (rows (store w)) /\
     In (mkRow (id r) (data r) processing (Some (cuid_New (cuid_blocks e))) (ack r)
               (created_at r) (now e) (priority r))
        (rows_after (DequeueWithAckId pq e) w) /\
     List.length (rows_after (DequeueWithAckId pq e) w) = List.length (rows (store w)) /\
     calls_of (DequeueWithAckId pq e) w =
       [CBegin; CQuery;
        CExec (UpdateProcessing (cuid_New (cuid_blocks e)) (now e) (id r)); CCommit]) /\
  (found (fst (DequeueWithAckId pq e w)) = true ->
   exists r,
     selectable (rows (store w)) r /\
     fst (DequeueWithAckId pq e w) = (Some (data r), true, cuid_New (cuid_blocks e)) /\
     forall r', In r' (rows_after (DequeueWithAckId pq e) w) ->
                ack_id r' = Some (cuid_New (cuid_blocks e)) -> id r' = id r).
Proof.
  split.
  - intros Hc He (r0 & Hin & Hp) Hfresh. eapply DequeueWithAckId_ok; eauto.
  - apply DequeueWithAckId_ack_unique.
Qed.

(* ------------------------------------------------------------------ *)
(** ** Plain dequeue *)

(** C3. On an open queue whose store calls succeed and whose table holds a
    pending row, Dequeue deletes the selected row inside the one transaction
    (Begin, query, DELETE, Commit) and returns its payload with found=true.
    When the table holds no pending row, or when the queue is closed, it
    returns the nil payload with found=false and the rows are unchanged. *)
Theorem Dequeue_deletes_or_finds_nothing pq e w :
  (closed (base pq) = false -> healthy e = true ->
   forall r0, In r0 (rows (store w)) -> status r0 = pending ->
   exists r,
     selectable (rows (store w)) r /\
     fst (Dequeue pq e w) = (Some (data r), true) /\
     rows_after (Dequeue pq e) w =
       filter (fun r' => negb (has_id (id r) r')) (rows (store w)) /\
     ~ In r (rows_after (Dequeue pq e) w) /\
     calls_of (Dequeue pq e) w = [CBegin; CQuery; CExec (Delete (id r)); CCommit]) /\
  ((forall r, In r (rows (store w)) -> status r <> pending) ->
   fst (Dequeue pq e w) = (None, false) /\
   rows_after (Dequeue pq e) w = rows (store w)) /\
  (closed (base pq) = true ->
   Dequeue pq e w = ((None, false), w)).
Proof.
  split; [| split].
  - intros Hc He r0 Hin Hp.
    destruct (query_next_Some_of_pending (tie e) _ _ Hin Hp) as [r Hq].
    pose proof (query_next_sound _ _ Hq) as Hs.
    assert (Hu : false = true ->
                 ack_conflict (cuid_New (cuid_blocks e)) (id r) (rows (store w)) = false)
      by discriminate.
    exists r. unfold rows_after, calls_of. rewrite !Dequeue_unfold.
    rewrite (@dequeueInternal_ok pq e false w r Hc He Hq Hu).
    rewrite (@dequeueInternal_ok pq e false (mkWorld (store w) (tx w) []) r Hc He Hq Hu).
    simpl.
    split; [exact Hs |]. split; [reflexivity |]. split; [reflexivity |].
    split; [| reflexivity].
    intros Hr. apply filter_In in Hr. destruct Hr as [_ Hr].
    unfold has_id in Hr. rewrite Z.eqb_refl in Hr. discriminate.
  - intros H. apply no_pending_rows in H.
    destruct (@dequeueInternal_no_pending pq e false w H) as [Hres Hrows].
    unfold rows_after in *. rewrite Dequeue_unfold. simpl.
    rewrite Hres. simpl. auto.
  - intros Hc. unfold Dequeue, bind. now rewrite dequeueInternal_closed.
Qed.

(* ------------------------------------------------------------------ *)
(** ** Atomicity on failure *)

(** C4. If Begin, Exec or Commit fails, Enqueue returns false; if Begin, the
    query's scan, Exec or Commit fails, Dequeue and DequeueWithAckId return
    not found.  Whenever Enqueue returns false, the rows of the table are
    the rows before the call: nothing was inserted.  Whenever Dequeue or
    DequeueWithAckId returns found=false, the rows of the table are the rows
    before the call: nothing was deleted or updated. *)
Theorem failed_operation_leaves_table_unchanged pq e w :
  (forall item prio,
      (begin_err e || exec_err e || commit_err e = true ->
       fst (Enqueue pq e item prio w) = false) /\
      (fst (Enqueue pq e item prio w) = false ->
       rows_after (Enqueue pq e item prio) w = rows (store w))) /\
  (begin_err e || scan_err e || exec_err e || commit_err e = true ->
   fst (Dequeue pq e w) = (None, false) /\
   fst (DequeueWithAckId pq e w) = (None, false, EmptyString)) /\
  (snd (fst (Dequeue pq e w)) = false ->
   rows_after (Dequeue pq e) w = rows (store w)) /\
  (found (fst (DequeueWithAckId pq e w)) = false ->
   rows_after (DequeueWithAckId pq e) w = rows (store w)).
Proof.
  repeat split.
  - apply Enqueue_failing_step.
  - apply Enqueue_false_rows.
  - rewrite Dequeue_unfold. simpl.
    now rewrite (@dequeueInternal_failing_step pq e false w H).
  - unfold DequeueWithAckId.
    now rewrite (@dequeueInternal_failing_step pq e true w H).
  - intros H. unfold rows_after. rewrite Dequeue_unfold in *. simpl in *.
    now apply dequeueInternal_not_found_rows.
  - intros H. now apply dequeueInternal_not_found_rows.
Qed.

(* ------------------------------------------------------------------ *)
(** ** Ties *)

(** C8 as stated fails: two rows enqueued at the same clock reading with the
    same priority get ids 1 and 2; both are pending and equal under
    (priority, created_at), and a store that returns the second of them makes
    Dequeue deliver the payload of row 2 while row 1 is still pending. *)
Lemma ties_not_broken_by_id :
  rows (store after_tied_enqueues) = [row_1; row_2] /\
  fst (Dequeue tasks (calm 1 200 "") after_tied_enqueues) = (Some task_B, true) /\
  rows_after (Dequeue tasks (calm 1 200 "")) after_tied_enqueues = [row_1] /\
  ~ ties_broken_by_id.
Proof.
  split; [reflexivity |]. split; [reflexivity |]. split; [reflexivity |].
  intros H. specialize (H 1%nat [row_1; row_2] row_2 row_1).
  simpl in H. assert (2 <= 1) by (apply H; auto). lia.
Qed.

Lemma tied_rows_both_selectable l r r' :
  In r' l -> status r' = pending ->
  priority r = priority r' -> created_at r = created_at r' ->
  selectable l r -> selectable l r'.
Proof.
  intros Hin Hp Hpr Hcr (_ & _ & Hmin). repeat split; auto.
  intros x Hx Hxp. specialize (Hmin x Hx Hxp). unfold key_le in *. lia.
Qed.

(** C8, amended. The row a dequeue selects is a pending row that no pending
    row precedes under (priority, created_at).  The id is no key of the
    query: of two pending rows equal in priority and created_at, if the store
    may return one it may return the other, and for each row the store may
    return there is a choice of the store under which Dequeue and
    DequeueWithAckId deliver that row. *)
Theorem ties_are_left_to_the_store l :
  (forall choice r, query_next choice l = Some r -> selectable l r) /\
  (forall r r',
      In r' l -> status r' = pending ->
      priority r = priority r' -> created_at r = created_at r' ->
      (exists c, query_next c l = Some r) -> exists c', query_next c' l = Some r') /\
  (forall pq e b w r,
      rows (store w) = l ->
      closed (base pq) = false -> healthy e = true ->
      selectable l r ->
      (forall r', In r' l -> ack_id r' <> Some (cuid_New (cuid_blocks e))) ->
      exists choice,
        fst (dequeueInternal pq (with_tie choice e) b w) =
          (Some (data r), true, dequeue_ackid b e)).
Proof.
  split; [| split].
  - intros choice r. apply query_next_sound.
  - intros r r' Hin Hp Hpr Hcr [c Hc]. apply query_next_complete.
    eapply tied_rows_both_selectable; eauto. eapply query_next_sound; eauto.
  - intros pq e b w r Hw Hc He Hs Hfresh. subst l.
    destruct (query_next_complete Hs) as [choice Hq]. exists choice.
    assert (He' : healthy (with_tie choice e) = true) by exact He.
    assert (Hu : b = true ->
                 ack_conflict (cuid_New (cuid_blocks (with_tie choice e))) (id r)
                              (rows (store w)) = false)
      by (intros _; now apply fresh_no_conflict).
    rewrite (@dequeueInternal_ok pq (with_tie choice e) b w r Hc He' Hq Hu).
    reflexivity.
Qed.

(* ------------------------------------------------------------------ *)
(** ** Construction failures *)

(** C5 as stated fails: when the store cannot be opened, [New] does not
    return; it panics. *)
Lemma New_panics_when_open_fails :
  New (Some (ErrDriver "cannot open file")) "queue.db" =
    Panics "failed to open database: cannot open file" /\
  forall qs, New (Some (ErrDriver "cannot open file")) "queue.db" <> Returns qs.
Proof.
  split; [reflexivity |]. intros qs. discriminate.
Qed.

(** C5, amended. A failure to create the sequence or the table is returned
    to the caller: NewPriorityQueue returns no queue and the error wrapped as
    "failed to initialize table: ...", runs no recovery sweep and leaves the
    world as it was; when both statements succeed it returns the queue and no
    error.  A failure to open the store is not returned: New has no error
    result and panics with "failed to open database: ..."; when the store
    opens, New returns the registry holding the handle. *)
Theorem construction_failure_reporting :
  (forall err dbPath,
      New (Some err) dbPath = Panics ("failed to open database: " ++ error_text err)) /\
  (forall dbPath, New None dbPath = Returns (mkQueues (mkDB dbPath))) /\
  (forall qs se queueKey opts w err,
      fst (createPriorityTable se (queues_client qs) queueKey w) = Some err ->
      NewPriorityQueue qs se queueKey opts w = ((None, Some (wrap_init_error err)), w)) /\
  (forall qs se queueKey opts w,
      fst (createPriorityTable se (queues_client qs) queueKey w) = None ->
      fst (NewPriorityQueue qs se queueKey opts w) =
        (Some (mkPriorityQueue
                 (apply_options opts (mkQueue (queues_client qs) queueKey true false))),
         None)).
Proof.
  split; [| split; [| split]].
  - reflexivity.
  - reflexivity.
  - intros qs se queueKey opts w err.
    unfold NewPriorityQueue, newPriorityQueue, createPriorityTable, bind, ret.
    destruct (create_seq_err se) as [e1 |]; simpl.
    + intros [= ->]. reflexivity.
    + destruct (create_table_err se) as [e2 |]; simpl.
      * intros [= ->]. reflexivity.
      * discriminate.
  - intros qs se queueKey opts w.
    unfold NewPriorityQueue, newPriorityQueue, createPriorityTable, RequeueNoAckRows,
      bind, ret.
    destruct (create_seq_err se) as [e1 |]; simpl; [discriminate |].
    destruct (create_table_err se) as [e2 |]; simpl; [discriminate |].
    reflexivity.
Qed.

(* ------------------------------------------------------------------ *)
(** ** Completion policy *)

Lemma newPriorityQueue_queue se db name opts w pq :
  fst (fst (newPriorityQueue se db name opts w)) = Some pq ->
  base pq = apply_options opts (mkQueue db name true false).
Proof.
  unfold newPriorityQueue, createPriorityTable, RequeueNoAckRows, bind, ret.
  destruct (create_seq_err se); simpl; [discriminate |].
  destruct (create_table_err se); simpl; [discriminate |].
  intros [= <-]. reflexivity.
Qed.

Lemma newQueue_queue se db name opts w q :
  fst (fst (newQueue se db name opts w)) = Some q ->
  q = apply_options opts (mkQueue db name false false).
Proof.
  unfold newQueue, RequeueNoAckRows, bind, ret.
  destruct (create_table_err se); simpl; [discriminate |].
  intros [= <-]. reflexivity.
Qed.

(** C6. A priority queue constructed without options has removeOnComplete
    set: acknowledging a row in flight deletes it.  The base queue
    constructed without options has it unset: acknowledging keeps the row
    with status done and ack set.  Options are applied after the default, so
    a supplied retain-on-completion option decides the policy of either
    queue. *)
Theorem completion_policy_defaults :
  (forall qs se queueKey w pq,
      fst (fst (NewPriorityQueue qs se queueKey [] w)) = Some pq ->
      removeOnComplete (base pq) = true) /\
  (forall se db name w q,
      fst (fst (newQueue se db name [] w)) = Some q ->
      removeOnComplete q = false) /\
  (forall qs se queueKey w pq retain,
      fst (fst (NewPriorityQueue qs se queueKey [retainOnCompletion retain] w)) = Some pq ->
      removeOnComplete (base pq) = negb retain) /\
  (forall se db name w q retain,
      fst (fst (newQueue se db name [retainOnCompletion retain] w)) = Some q ->
      removeOnComplete q = negb retain) /\
  (forall q t ackID w,
      existsb (acked_by ackID) (rows (store w)) = true ->
      fst (Acknowledge q t ackID w) = true /\
      (removeOnComplete q = true ->
       rows_after (Acknowledge q t ackID) w =
         filter (fun r => negb (acked_by ackID r)) (rows (store w))) /\
      (removeOnComplete q = false ->
       rows_after (Acknowledge q t ackID) w =
         map (mark_done ackID t) (rows (store w)))).
Proof.
  split; [| split; [| split; [| split]]].
  - intros qs se queueKey w pq H. apply newPriorityQueue_queue in H.
    rewrite H. reflexivity.
  - intros se db name w q H. apply newQueue_queue in H. subst q. reflexivity.
  - intros qs se queueKey w pq retain H. apply newPriorityQueue_queue in H.
    rewrite H. reflexivity.
  - intros se db name w q retain H. apply newQueue_queue in H. subst q. reflexivity.
  - intros q t ackID w H. unfold rows_after, Acknowledge. rewrite H.
    destruct (removeOnComplete q); simpl; repeat split; auto; discriminate.
Qed.

(* ------------------------------------------------------------------ *)
(** ** In flight exactly when an ack id is stored *)

Lemma Enqueue_true_rows pq e item prio w :
  fst (Enqueue pq e item prio w) = true ->
  rows_after (Enqueue pq e item prio) w =
    rows (store w) ++ [inserted_row (seq (store w)) item (now e) prio].
Proof.
  unfold inserted_row. unfold_ops. break_all.
Qed.

Lemma ack_inv_inserted n item t prio : ack_inv (inserted_row n item t prio).
Proof. unfold ack_inv, inserted_row. simpl. split; [discriminate | congruence]. Qed.

Lemma ack_inv_mark_processing a t i r :
  ack_inv r -> ack_inv (mark_processing a t i r).
Proof.
  unfold mark_processing. destruct (has_id i r); [| auto].
  intros _. unfold ack_inv. simpl. split; [discriminate | reflexivity].
Qed.

Lemma Enqueue_keeps_ack_inv pq e item prio w :
  Forall ack_inv (rows (store w)) ->
  Forall ack_inv (rows_after (Enqueue pq e item prio) w).
Proof.
  intros H. destruct (fst (Enqueue pq e item prio w)) eqn:E.
  - rewrite (Enqueue_true_rows _ _ _ _ _ E). apply Forall_app. split; [exact H |].
    constructor; [apply ack_inv_inserted | constructor].
  - now rewrite (Enqueue_false_rows _ _ _ _ _ E).
Qed.

Lemma dequeueInternal_keeps_ack_inv pq e b w :
  Forall ack_inv (rows (store w)) ->
  Forall ack_inv (rows_after (dequeueInternal pq e b) w).
Proof.
  intros H. destruct (found (fst (dequeueInternal pq e b w))) eqn:E.
  - destruct (dequeueInternal_found _ _ _ _ E) as (r & _ & _ & ->).
    destruct b.
    + apply Forall_forall. intros x Hx. apply in_map_iff in Hx.
      destruct Hx as (y & <- & Hy). apply ack_inv_mark_processing.
      rewrite Forall_forall in H. auto.
    + apply Forall_forall. intros x Hx. apply filter_In in Hx.
      rewrite Forall_forall in H. apply H. tauto.
  - now rewrite (dequeueInternal_not_found_rows _ _ _ _ E).
Qed.

Lemma run_op_keeps_ack_inv pq c w :
  Forall ack_inv (rows (store w)) ->
  Forall ack_inv (rows (store (snd (run_op pq c w)))).
Proof.
  intros H. destruct c as [e [item prio | |]].
  - rewrite run_op_Enqueue. now apply Enqueue_keeps_ack_inv.
  - rewrite run_op_Dequeue. now apply dequeueInternal_keeps_ack_inv.
  - rewrite run_op_DequeueWithAckId. now apply dequeueInternal_keeps_ack_inv.
Qed.

Lemma filter_all {A} (l : list A) : filter (fun _ => true) l = l.
Proof. induction l as [| x l IH]; simpl; [reflexivity | now rewrite IH]. Qed.

Lemma dequeueInternal_plain_ackid pq e w :
  ackid_of (fst (dequeueInternal pq e false w)) = EmptyString.
Proof.
  unfold_ops. break_all.
Qed.

(** C10. If every row of the table is processing exactly when its ack_id is
    not NULL, the same holds after Enqueue, after Dequeue and after
    DequeueWithAckId, whatever the store answers, and so after every
    sequence of them.  An Enqueue that succeeds appends one row with status
    pending and a NULL ack_id; a DequeueWithAckId that finds a row executes
    one UPDATE that sets processing and the ack id, which is not empty,
    together; Dequeue only removes rows and hands out no ack id. *)
Theorem processing_iff_ack_id pq :
  (forall cs w,
      Forall ack_inv (rows (store w)) ->
      Forall ack_inv (rows_after (run_ops pq cs) w)) /\
  (forall e item prio w,
      fst (Enqueue pq e item prio w) = true ->
      rows_after (Enqueue pq e item prio) w =
        rows (store w) ++
        [mkRow (seq (store w)) item pending None false (now e) (now e) prio]) /\
  (forall e w,
      found (fst (DequeueWithAckId pq e w)) = true ->
      exists r,
        ackid_of (fst (DequeueWithAckId pq e w)) = cuid_New (cuid_blocks e) /\
        cuid_New (cuid_blocks e) <> EmptyString /\
        rows_after (DequeueWithAckId pq e) w =
          map (mark_processing (cuid_New (cuid_blocks e)) (now e) (id r))
              (rows (store w)) /\
        calls_of (DequeueWithAckId pq e) w =
          [CBegin; CQuery;
           CExec (UpdateProcessing (cuid_New (cuid_blocks e)) (now e) (id r));
           CCommit]) /\
  (forall e w,
      ackid_of (fst (dequeueInternal pq e false w)) = EmptyString /\
      exists keep,
        rows_after (Dequeue pq e) w = filter keep (rows (store w))).
Proof.
  split; [| split; [| split]].
  - intros cs. induction cs as [| c cs IH]; intros w H.
    + exact H.
    + unfold rows_after. rewrite run_ops_cons. simpl.
      apply IH. now apply run_op_keeps_ack_inv.
  - intros e item prio w H. now apply Enqueue_true_rows.
  - intros e w H. unfold DequeueWithAckId in *.
    destruct (dequeueInternal_found_inv _ _ _ _ H) as (r & Hq & Hc & He & Hu).
    exists r. unfold rows_after, calls_of.
    rewrite (@dequeueInternal_ok pq e true w r Hc He Hq Hu).
    rewrite (@dequeueInternal_ok pq e true (mkWorld (store w) (tx w) []) r Hc He Hq Hu).
    simpl. split; [reflexivity |]. split; [apply cuid_New_nonempty |].
    split; reflexivity.
  - intros e w. split; [apply dequeueInternal_plain_ackid |].
    unfold rows_after. rewrite Dequeue_unfold. simpl.
    destruct (found (fst (dequeueInternal pq e false w))) eqn:E.
    + destruct (dequeueInternal_found _ _ _ _ E) as (r & _ & _ & Hrows).
      unfold rows_after in Hrows. rewrite Hrows. eauto.
    + apply dequeueInternal_not_found_rows in E. unfold rows_after in E.
      rewrite E. exists (fun _ => true). symmetry. apply filter_all.
Qed.

(* ------------------------------------------------------------------ *)
(** ** The theorems at concrete inputs *)

(** C7 on the closed queue over a table with two pending rows. *)
Lemma closed_queue_is_inert_witness :
  closed (base tasks_closed) = true /\
  Enqueue tasks_closed (calm 0 200 "") task_C 7 tied_world = (false, tied_world) /\
  Dequeue tasks_closed (calm 0 200 "") tied_world = ((None, false), tied_world) /\
  DequeueWithAckId tasks_closed (calm 0 200 "k1") tied_world =
    ((None, false, EmptyString), tied_world) /\
  run_ops tasks_closed
    [(calm 0 200 "", OpEnqueue task_C 7); (calm 0 210 "", OpDequeue);
     (calm 0 220 "k1", OpDequeueWithAckId)] tied_world =
    ([REnqueue false; RDequeue (None, false); RDequeueWithAckId not_found], tied_world).
Proof.
  split; [reflexivity |].
  destruct (@closed_queue_is_inert tasks_closed eq_refl) as (H1 & H2 & H3 & H4).
  split; [apply H1 |]. split; [apply H2 |]. split; [apply H3 |]. apply H4.
Defined.

(** C1: the ordering test of the spec on the fresh queue [tasks]. *)
Lemma dequeue_serves_lowest_priority_then_oldest_witness :
  (closed (base tasks) = false /\
   forallb healthy [calm 0 100 ""; calm 0 200 ""; calm 0 300 "";
                    calm 0 400 ""; calm 0 500 ""; calm 0 600 ""] = true /\
   rows (store fresh_world) = [] /\
   now (calm 0 100 "") < now (calm 0 300 "")) /\
  fst (run_ops tasks
         (scenario false (calm 0 100 "") (calm 0 200 "") (calm 0 300 "")
                   (calm 0 400 "") (calm 0 500 "") (calm 0 600 "")
                   task_A task_B task_C) fresh_world) =
    [REnqueue true; REnqueue true; REnqueue true;
     RDequeue (Some task_B, true); RDequeue (Some task_A, true);
     RDequeue (Some task_C, true)].
Proof.
  split; [repeat split; reflexivity |].
  apply (proj1 (proj2 (proj2 (dequeue_serves_lowest_priority_then_oldest tasks))));
    reflexivity.
Defined.

Lemma tied_world_fresh blocks :
  blocks <> "old"%string ->
  forall r', In r' (rows (store tied_world)) -> ack_id r' <> Some (cuid_New blocks).
Proof.
  intros Hb r' Hin. simpl in Hin.
  destruct Hin as [<- | [<- | [<- | []]]]; simpl; try discriminate.
  intros [= E]. apply Hb. now rewrite E.
Qed.

(** C2 on [tied_world]: rows 1 and 2 are pending, row 3 is in flight. *)
Lemma DequeueWithAckId_marks_processing_witness :
  (closed (base tasks) = false /\ healthy (calm 0 200 "k9") = true /\
   (exists r0, In r0 (rows (store tied_world)) /\ status r0 = pending)) /\
  exists r,
    selectable (rows (store tied_world)) r /\
    fst (DequeueWithAckId tasks (calm 0 200 "k9") tied_world) =
      (Some (data r), true, cuid_New "k9") /\
    cuid_New "k9" <> EmptyString /\
    rows_after (DequeueWithAckId tasks (calm 0 200 "k9")) tied_world =
      map (mark_processing (cuid_New "k9") 200 (id r)) (rows (store tied_world)) /\
    In (mkRow (id r) (data r) processing (Some (cuid_New "k9")) (ack r)
              (created_at r) 200 (priority r))
       (rows_after (DequeueWithAckId tasks (calm 0 200 "k9")) tied_world) /\
    List.length (rows_after (DequeueWithAckId tasks (calm 0 200 "k9")) tied_world) =
      List.length (rows (store tied_world)) /\
    calls_of (DequeueWithAckId tasks (calm 0 200 "k9")) tied_world =
      [CBegin; CQuery; CExec (UpdateProcessing (cuid_New "k9") 200 (id r)); CCommit].
Proof.
  assert (Hp : exists r0, In r0 (rows (store tied_world)) /\ status r0 = pending)
    by (exists row_1; simpl; auto).
  split; [repeat split; auto |].
  apply (proj1 (DequeueWithAckId_marks_processing tasks (calm 0 200 "k9") tied_world)
           eq_refl eq_refl Hp).
  apply tied_world_fresh. discriminate.
Defined.

(** C3 on [tied_world], on a table without pending rows and on the closed
    queue. *)
Lemma Dequeue_deletes_or_finds_nothing_witness :
  (exists r,
     selectable (rows (store tied_world)) r /\
     fst (Dequeue tasks (calm 0 200 "") tied_world) = (Some (data r), true) /\
     rows_after (Dequeue tasks (calm 0 200 "")) tied_world =
       filter (fun r' => negb (has_id (id r) r')) (rows (store tied_world)) /\
     ~ In r (rows_after (Dequeue tasks (calm 0 200 "")) tied_world) /\
     calls_of (Dequeue tasks (calm 0 200 "")) tied_world =
       [CBegin; CQuery; CExec (Delete (id r)); CCommit]) /\
  (fst (Dequeue tasks (calm 0 200 "") fresh_world) = (None, false) /\
   rows_after (Dequeue tasks (calm 0 200 "")) fresh_world = rows (store fresh_world)) /\
  Dequeue tasks_closed (calm 0 200 "") tied_world = ((None, false), tied_world).
Proof.
  split; [| split].
  - apply (proj1 (Dequeue_deletes_or_finds_nothing tasks (calm 0 200 "") tied_world)
             eq_refl eq_refl row_1).
    + simpl. auto.
    + reflexivity.
  - apply (proj1 (proj2 (Dequeue_deletes_or_finds_nothing tasks (calm 0 200 "") fresh_world))).
    intros r [].
  - apply (proj2 (proj2 (Dequeue_deletes_or_finds_nothing tasks_closed (calm 0 200 "")
                           tied_world))).
    reflexivity.
Defined.

(** C4 with a store whose Commit fails. *)
Lemma failed_operation_leaves_table_unchanged_witness :
  begin_err commit_fails || exec_err commit_fails || commit_err commit_fails = true /\
  fst (Enqueue tasks commit_fails task_C 3 tied_world) = false /\
  rows_after (Enqueue tasks commit_fails task_C 3) tied_world = rows (store tied_world) /\
  fst (Dequeue tasks commit_fails tied_world) = (None, false) /\
  fst (DequeueWithAckId tasks commit_fails tied_world) = (None, false, EmptyString) /\
  rows_after (Dequeue tasks commit_fails) tied_world = rows (store tied_world) /\
  rows_after (DequeueWithAckId tasks commit_fails) tied_world = rows (store tied_world).
Proof.
  destruct (failed_operation_leaves_table_unchanged tasks commit_fails tied_world)
    as (HE & HD & HDr & HAr).
  destruct (HE task_C 3) as [HE1 HE2]. destruct (HD eq_refl) as [HD1 HD2].
  split; [reflexivity |]. split; [apply HE1; reflexivity |].
  split; [apply HE2; apply HE1; reflexivity |].
  split; [exact HD1 |]. split; [exact HD2 |].
  split; [apply HDr; now rewrite HD1 | apply HAr; unfold found; now rewrite HD2].
Defined.

(** C5 with a store that refuses CREATE TABLE. *)
Lemma construction_failure_reporting_witness :
  fst (createPriorityTable table_refused (queues_client registry) "tasks" fresh_world) =
    Some (ErrDriver "disk full") /\
  NewPriorityQueue registry table_refused "tasks" [] fresh_world =
    ((None, Some (ErrDriver "failed to initialize table: disk full")), fresh_world).
Proof.
  split; [reflexivity |].
  apply (proj1 (proj2 (proj2 construction_failure_reporting)) registry table_refused
           "tasks"%string [] fresh_world (ErrDriver "disk full")).
  reflexivity.
Defined.

(** C6 with a store that answers every call. *)
Lemma completion_policy_defaults_witness :
  fst (fst (NewPriorityQueue registry store_answers "tasks" [] tied_world)) = Some tasks /\
  removeOnComplete (base tasks) = true /\
  existsb (acked_by "cold") (rows (store tied_world)) = true /\
  rows_after (Acknowledge (base tasks) 300 "cold") tied_world =
    filter (fun r => negb (acked_by "cold" r)) (rows (store tied_world)).
Proof.
  destruct completion_policy_defaults as (H1 & _ & _ & _ & H5).
  split; [reflexivity |].
  split; [apply (H1 registry store_answers "tasks"%string tied_world tasks); reflexivity |].
  split; [reflexivity |].
  apply (H5 (base tasks) 300 "cold"%string tied_world); reflexivity.
Defined.

(** C8, amended: on [tied_world] the store may return row 1 or row 2. *)
Lemma ties_are_left_to_the_store_witness :
  (query_next 0 (rows (store tied_world)) = Some row_1 /\
   In row_2 (rows (store tied_world)) /\ status row_2 = pending /\
   priority row_1 = priority row_2 /\ created_at row_1 = created_at row_2) /\
  selectable (rows (store tied_world)) row_1 /\
  exists c', query_next c' (rows (store tied_world)) = Some row_2.
Proof.
  destruct (ties_are_left_to_the_store (rows (store tied_world))) as (H1 & H2 & _).
  split; [repeat split; simpl; auto |].
  split; [apply (H1 0%nat); reflexivity |].
  apply (H2 row_1 row_2); try reflexivity.
  - simpl. auto.
  - exists 0%nat. reflexivity.
Defined.

Lemma tied_world_ack_inv : Forall ack_inv (rows (store tied_world)).
Proof.
  repeat constructor; try discriminate; simpl; congruence.
Qed.

(** C10 on [tied_world] with an enqueue and both kinds of dequeue. *)
Lemma processing_iff_ack_id_witness :
  Forall ack_inv (rows (store tied_world)) /\
  Forall ack_inv (rows_after (run_ops tasks mixed_ops) tied_world) /\
  (fst (Enqueue tasks (calm 0 200 "") task_C 7 tied_world) = true /\
   rows_after (Enqueue tasks (calm 0 200 "") task_C 7) tied_world =
     rows (store tied_world) ++ [mkRow 4 task_C pending None false 200 200 7]).
Proof.
  destruct (processing_iff_ack_id tasks) as (H1 & H2 & _).
  split; [exact tied_world_ack_inv |].
  split; [apply H1; exact tied_world_ack_inv |].
  split; [reflexivity |]. apply (H2 (calm 0 200 "") task_C 7 tied_world). reflexivity.
Defined.

(* ------------------------------------------------------------------ *)
(** ** The store after an operation *)

Lemma Enqueue_true_store pq e item prio w :
  fst (Enqueue pq e item prio w) = true ->
  store (snd (Enqueue pq e item prio w)) =
    mkStore (rows (store w) ++ [inserted_row (seq (store w)) item (now e) prio])
            (seq (store w) + 1).
Proof.
  unfold inserted_row. unfold_ops. break_all.
Qed.

Lemma Enqueue_seq_cases pq e item prio w :
  seq (store (snd (Enqueue pq e item prio w))) = seq (store w) \/
  seq (store (snd (Enqueue pq e item prio w))) = seq (store w) + 1.
Proof.
  unfold_ops. break_all; auto.
Qed.

Lemma dequeueInternal_seq pq e b w :
  seq (store (snd (dequeueInternal pq e b w))) = seq (store w).
Proof.
  unfold_ops. break_all.
Qed.

Lemma Enqueue_true_inv pq e item prio w :
  fst (Enqueue pq e item prio w) = true ->
  closed (base pq) = false /\ begin_err e = false /\ exec_err e = false /\
  commit_err e = false /\
  existsb (has_id (seq (store w))) (rows (store w)) = false.
Proof.
  unfold_ops.
  destruct (closed (base pq)); simpl; [discriminate |].
  destruct (begin_err e); simpl; [discriminate |].
  destruct (exec_err e); simpl; [discriminate |].
  destruct (existsb (has_id (seq (store w))) (rows (store w))); simpl; [discriminate |].
  destruct (commit_err e); simpl; [discriminate | auto].
Qed.

Lemma Enqueue_closes_tx pq e item prio w :
  tx w = None -> tx (snd (Enqueue pq e item prio w)) = None.
Proof.
  unfold_ops. break_all.
Qed.

Lemma dequeueInternal_closes_tx pq e b w :
  tx w = None -> tx (snd (dequeueInternal pq e b w)) = None.
Proof.
  unfold_ops. break_all.
Qed.

(* ------------------------------------------------------------------ *)
(** ** Unique ids *)

Lemma below_seq_free n l :
  Forall (fun r => id r < n) l -> existsb (has_id n) l = false.
Proof.
  intros H. apply not_true_is_false. intros E. apply existsb_exists in E.
  destruct E as (r & Hin & Hr). rewrite Forall_forall in H. specialize (H r Hin).
  unfold has_id in Hr. apply Z.eqb_eq in Hr. lia.
Qed.

Lemma store_wf_fresh_id s : store_wf s -> existsb (has_id (seq s)) (rows s) = false.
Proof. intros [_ H]. now apply below_seq_free. Qed.

Lemma map_id_mark a t i l : map id (map (mark_processing a t i) l) = map id l.
Proof.
  rewrite map_map. apply map_ext. intros r. apply mark_processing_id.
Qed.

Lemma NoDup_map_filter {A B} (f : A -> B) (p : A -> bool) l :
  NoDup (map f l) -> NoDup (map f (filter p l)).
Proof.
  induction l as [| x l IH]; simpl; intros H; [constructor |].
  inversion H as [| ? ? Hx Hl]; subst.
  destruct (p x); simpl; [| now apply IH].
  constructor; [| now apply IH].
  intros Hin. apply Hx. apply in_map_iff in Hin. destruct Hin as (y & Hy & Hin).
  apply filter_In in Hin. apply in_map_iff. exists y. tauto.
Qed.

Lemma store_wf_insert s item t prio :
  store_wf s ->
  store_wf (mkStore (rows s ++ [inserted_row (seq s) item t prio]) (seq s + 1)).
Proof.
  intros [Hn Hb]. split; simpl.
  - rewrite map_app. simpl. apply NoDup_app; [exact Hn | repeat constructor; auto |].
    intros x Hx [<- | []]. apply in_map_iff in Hx. destruct Hx as (r & Hr & Hin).
    rewrite Forall_forall in Hb. specialize (Hb r Hin). lia.
  - apply Forall_app. split.
    + eapply Forall_impl; [| exact Hb]. simpl. intros. lia.
    + repeat constructor. simpl. lia.
Qed.

Lemma Enqueue_keeps_wf pq e item prio w :
  store_wf (store w) -> store_wf (store (snd (Enqueue pq e item prio w))).
Proof.
  intros Hwf. destruct (fst (Enqueue pq e item prio w)) eqn:E.
  - rewrite (Enqueue_true_store _ _ _ _ _ E). now apply store_wf_insert.
  - pose proof (Enqueue_false_rows _ _ _ _ _ E) as Hr. unfold rows_after in Hr.
    destruct Hwf as [Hn Hb]. split; rewrite Hr; [exact Hn |].
    eapply Forall_impl; [| exact Hb]. simpl. intros r Hlt.
    destruct (Enqueue_seq_cases pq e item prio w) as [-> | ->]; lia.
Qed.

Lemma dequeueInternal_keeps_wf pq e b w :
  store_wf (store w) -> store_wf (store (snd (dequeueInternal pq e b w))).
Proof.
  intros [Hn Hb]. unfold store_wf. rewrite dequeueInternal_seq.
  destruct (found (fst (dequeueInternal pq e b w))) eqn:E.
  - destruct (dequeueInternal_found _ _ _ _ E) as (r & _ & _ & Hrows).
    unfold rows_after in Hrows. rewrite Hrows. destruct b.
    + rewrite map_id_mark. split; [exact Hn |].
      apply Forall_forall. intros x Hx. apply in_map_iff in Hx.
      destruct Hx as (y & <- & Hy). rewrite mark_processing_id.
      rewrite Forall_forall in Hb. auto.
    + split; [now apply NoDup_map_filter |].
      apply Forall_forall. intros x Hx. apply filter_In in Hx.
      rewrite Forall_forall in Hb. apply Hb. tauto.
  - pose proof (dequeueInternal_not_found_rows _ _ _ _ E) as Hr.
    unfold rows_after in Hr. rewrite Hr. auto.
Qed.

Lemma run_op_keeps_wf pq c w :
  store_wf (store w) -> store_wf (store (snd (run_op pq c w))).
Proof.
  intros H. destruct c as [e [item prio | |]].
  - rewrite run_op_Enqueue. now apply Enqueue_keeps_wf.
  - rewrite run_op_Dequeue. now apply dequeueInternal_keeps_wf.
  - rewrite run_op_DequeueWithAckId. now apply dequeueInternal_keeps_wf.
Qed.

Lemma run_op_seq_mono pq c w :
  seq (store w) <= seq (store (snd (run_op pq c w))).
Proof.
  destruct c as [e [item prio | |]].
  - rewrite run_op_Enqueue. simpl.
    destruct (Enqueue_seq_cases pq e item prio w) as [-> | ->]; lia.
  - rewrite run_op_Dequeue. simpl. rewrite dequeueInternal_seq. lia.
  - rewrite run_op_DequeueWithAckId. simpl. rewrite dequeueInternal_seq. lia.
Qed.

Lemma run_op_closes_tx pq c w :
  tx w = None -> tx (snd (run_op pq c w)) = None.
Proof.
  intros H. destruct c as [e [item prio | |]].
  - rewrite run_op_Enqueue. now apply Enqueue_closes_tx.
  - rewrite run_op_Dequeue. now apply dequeueInternal_closes_tx.
  - rewrite run_op_DequeueWithAckId. now apply dequeueInternal_closes_tx.
Qed.

Lemma run_ops_snd_cons pq c cs w :
  snd (run_ops pq (c :: cs) w) = snd (run_ops pq cs (snd (run_op pq c w))).
Proof. now rewrite run_ops_cons. Qed.

Lemma run_ops_fst_cons pq c cs w :
  fst (run_ops pq (c :: cs) w) =
    fst (run_op pq c w) :: fst (run_ops pq cs (snd (run_op pq c w))).
Proof. now rewrite run_ops_cons. Qed.

Lemma run_op_ids pq c w r :
  In r (rows (store (snd (run_op pq c w)))) ->
  (exists r0, In r0 (rows (store w)) /\ id r0 = id r) \/ seq (store w) <= id r.
Proof.
  destruct c as [e [item prio | |]].
  - rewrite run_op_Enqueue. simpl. destruct (fst (Enqueue pq e item prio w)) eqn:E.
    + rewrite (Enqueue_true_store _ _ _ _ _ E). simpl. intros Hin.
      apply in_app_iff in Hin. destruct Hin as [Hin | [<- | []]]; [eauto |].
      right. simpl. lia.
    + pose proof (Enqueue_false_rows _ _ _ _ _ E) as Hr. unfold rows_after in Hr.
      rewrite Hr. eauto.
  - rewrite run_op_Dequeue. simpl.
    destruct (found (fst (dequeueInternal pq e false w))) eqn:E.
    + destruct (dequeueInternal_found _ _ _ _ E) as (r1 & _ & _ & Hrows).
      unfold rows_after in Hrows. rewrite Hrows. intros Hin.
      apply filter_In in Hin. left. exists r. tauto.
    + pose proof (dequeueInternal_not_found_rows _ _ _ _ E) as Hr.
      unfold rows_after in Hr. rewrite Hr. eauto.
  - rewrite run_op_DequeueWithAckId. simpl.
    destruct (found (fst (dequeueInternal pq e true w))) eqn:E.
    + destruct (dequeueInternal_found _ _ _ _ E) as (r1 & _ & _ & Hrows).
      unfold rows_after in Hrows. rewrite Hrows. intros Hin.
      apply in_map_iff in Hin. destruct Hin as (y & <- & Hy).
      left. exists y. split; [exact Hy |]. now rewrite mark_processing_id.
    + pose proof (dequeueInternal_not_found_rows _ _ _ _ E) as Hr.
      unfold rows_after in Hr. rewrite Hr. eauto.
Qed.

(* ------------------------------------------------------------------ *)
(** ** Properties of sequences of operations *)

(** X1. Whatever the store answers, a sequence of Enqueue, Dequeue and
    DequeueWithAckId calls keeps the ids of the table pairwise different and
    below the sequence, never moves the sequence back, and gives every row
    it adds an id at or above the sequence value it started from: the id of
    a row, also of a deleted one, is not given to another row. *)
Theorem ids_stay_unique pq cs w :
  store_wf (store w) ->
  store_wf (store (snd (run_ops pq cs w))) /\
  seq (store w) <= seq (store (snd (run_ops pq cs w))) /\
  forall r, In r (rows_after (run_ops pq cs) w) ->
            (exists r0, In r0 (rows (store w)) /\ id r0 = id r) \/
            seq (store w) <= id r.
Proof.
  revert w. induction cs as [| c cs IH]; intros w Hwf.
  - simpl. split; [exact Hwf |]. split; [lia |]. intros r Hin. left. eauto.
  - unfold rows_after. rewrite run_ops_snd_cons.
    pose proof (run_op_keeps_wf pq c w Hwf) as Hwf1.
    pose proof (run_op_seq_mono pq c w) as Hm.
    destruct (IH _ Hwf1) as (H1 & H2 & H3).
    split; [exact H1 |]. split; [lia |].
    intros r Hin. destruct (H3 r Hin) as [(r1 & Hin1 & E1) | Hge]; [| right; lia].
    destruct (run_op_ids pq c w r1 Hin1) as [(r0 & Hin0 & E0) | Hge].
    + left. exists r0. split; [exact Hin0 | congruence].
    + right. lia.
Qed.

(** X2. The calls Enqueue makes to the store follow one of five shapes.  It
    returns true exactly when it made Begin, the INSERT and Commit and
    nothing else.  When it returns false it made no call (closed queue), or
    Begin alone (Begin failed), or it rolled back: after a failed INSERT
    Rollback is called twice (by the error branch and by the deferred
    function), after a failed Commit once.  It never commits after a failed
    INSERT, and a transaction it began is not left open. *)
Theorem Enqueue_protocol pq e item prio w :
  ((fst (Enqueue pq e item prio w) = true /\
    calls_of (Enqueue pq e item prio) w =
      [CBegin; CExec (Insert item pending (now e) (now e) prio); CCommit]) \/
   (fst (Enqueue pq e item prio w) = false /\
    (calls_of (Enqueue pq e item prio) w = [] \/
     calls_of (Enqueue pq e item prio) w = [CBegin] \/
     calls_of (Enqueue pq e item prio) w =
       [CBegin; CExec (Insert item pending (now e) (now e) prio);
        CRollback; CRollback] \/
     calls_of (Enqueue pq e item prio) w =
       [CBegin; CExec (Insert item pending (now e) (now e) prio);
        CCommit; CRollback]))) /\
  (calls_of (Enqueue pq e item prio) w = [] \/
   calls_of (Enqueue pq e item prio) w = [CBegin] \/
   tx (snd (Enqueue pq e item prio w)) = None).
Proof.
  unfold_ops.
  destruct (closed (base pq)); simpl; [split; [right; auto | auto] |].
  destruct (begin_err e); simpl; [split; [right; auto | auto] |].
  destruct (exec_err e); simpl; [split; [right; auto 6 | auto] |].
  destruct (existsb (has_id (seq (store w))) (rows (store w))); simpl;
    [split; [right; auto 6 | auto] |].
  destruct (commit_err e); simpl; split; auto 7.
Qed.

(** X3. The calls dequeueInternal makes follow one of six shapes.  It finds
    a row exactly when it made Begin, the query, one statement on the row
    the query returned (DELETE, or UPDATE with ack id) and Commit.  When it
    finds none it made no call (closed queue), or Begin alone, or it rolled
    back: twice after a failed scan or no row, twice after a failed
    statement, once after a failed Commit.  It executes at most one
    statement, none without a selected row, never commits after a failure,
    and a transaction it began is not left open. *)
Theorem dequeueInternal_protocol pq e b w :
  ((found (fst (dequeueInternal pq e b w)) = true /\
    exists r, query_next (tie e) (rows (store w)) = Some r /\
              calls_of (dequeueInternal pq e b) w =
                [CBegin; CQuery; CExec (dequeue_stmt b e (id r)); CCommit]) \/
   (fst (dequeueInternal pq e b w) = not_found /\
    (calls_of (dequeueInternal pq e b) w = [] \/
     calls_of (dequeueInternal pq e b) w = [CBegin] \/
     calls_of (dequeueInternal pq e b) w = [CBegin; CQuery; CRollback; CRollback] \/
     exists r, query_next (tie e) (rows (store w)) = Some r /\
               (calls_of (dequeueInternal pq e b) w =
                  [CBegin; CQuery; CExec (dequeue_stmt b e (id r));
                   CRollback; CRollback] \/
                calls_of (dequeueInternal pq e b) w =
                  [CBegin; CQuery; CExec (dequeue_stmt b e (id r));
                   CCommit; CRollback])))) /\
  (calls_of (dequeueInternal pq e b) w = [] \/
   calls_of (dequeueInternal pq e b) w = [CBegin] \/
   tx (snd (dequeueInternal pq e b w)) = None).
Proof.
  unfold dequeue_stmt. unfold_ops.
  destruct (closed (base pq)); simpl; [split; [right |]; auto |].
  destruct (begin_err e); simpl; [split; [right |]; auto |].
  destruct (scan_err e); simpl; [split; [right |]; auto |].
  destruct (query_next (tie e) (rows (store w))) as [r |]; simpl;
    [| split; [right |]; auto].
  destruct b; simpl; destruct (exec_err e); simpl;
    try (split; [right; eauto 8 | auto]; fail).
  - destruct (ack_conflict _ _ _); simpl; [split; [right; eauto 8 | auto] |].
    destruct (commit_err e); simpl; (split; [| auto]); [right; eauto 8 | left; eauto].
  - destruct (commit_err e); simpl; (split; [| auto]); [right; eauto 8 | left; eauto].
Qed.

Lemma NoDup_map_inj {A B} (f : A -> B) l x y :
  NoDup (map f l) -> In x l -> In y l -> f x = f y -> x = y.
Proof.
  induction l as [| z l IH]; simpl; intros Hn Hx Hy E; [destruct Hx |].
  inversion Hn as [| ? ? Hz Hl]; subst.
  destruct Hx as [-> | Hx], Hy as [-> | Hy]; auto.
  - exfalso. apply Hz. rewrite E. now apply in_map.
  - exfalso. apply Hz. rewrite <- E. now apply in_map.
Qed.

Lemma other_row_other_id s r r1 :
  store_wf s -> In r (rows s) -> In r1 (rows s) ->
  status r <> pending -> status r1 = pending ->
  has_id (id r1) r = false.
Proof.
  intros [Hn _] Hr Hr1 Hs Hs1. unfold has_id. apply Z.eqb_neq. intros E.
  assert (r = r1) by (eapply NoDup_map_inj; eauto). subst. contradiction.
Qed.

Lemma dequeueInternal_frame pq e b w r :
  store_wf (store w) ->
  In r (rows (store w)) -> status r <> pending ->
  In r (rows_after (dequeueInternal pq e b) w).
Proof.
  intros Hwf Hin Hs. destruct (found (fst (dequeueInternal pq e b w))) eqn:E.
  - destruct (dequeueInternal_found _ _ _ _ E) as (r1 & (Hin1 & Hp1 & _) & _ & ->).
    pose proof (@other_row_other_id (store w) r r1 Hwf Hin Hin1 Hs Hp1) as Hid.
    destruct b.
    + apply in_map_iff. exists r. split; [| exact Hin].
      unfold mark_processing. now rewrite Hid.
    + apply filter_In. split; [exact Hin |]. now rewrite Hid.
  - now rewrite (dequeueInternal_not_found_rows _ _ _ _ E).
Qed.

Lemma run_op_frame pq c w r :
  store_wf (store w) ->
  In r (rows (store w)) -> status r <> pending ->
  In r (rows (store (snd (run_op pq c w)))).
Proof.
  intros Hwf Hin Hs. destruct c as [e [item prio | |]].
  - rewrite run_op_Enqueue. simpl. destruct (fst (Enqueue pq e item prio w)) eqn:E.
    + rewrite (Enqueue_true_store _ _ _ _ _ E). simpl. apply in_app_iff. now left.
    + pose proof (Enqueue_false_rows _ _ _ _ _ E) as Hr. unfold rows_after in Hr.
      now rewrite Hr.
  - rewrite run_op_Dequeue. now apply dequeueInternal_frame.
  - rewrite run_op_DequeueWithAckId. now apply dequeueInternal_frame.
Qed.

(** X4. In a table with unique ids, rows that are not pending (in flight or
    done) are out of reach of Enqueue, Dequeue and DequeueWithAckId: after
    any sequence of these calls, whatever the store answers, every such row
    is still in the table, unchanged. *)
Theorem rows_not_pending_are_untouched pq cs w r :
  store_wf (store w) ->
  In r (rows (store w)) -> status r <> pending ->
  In r (rows_after (run_ops pq cs) w).
Proof.
  revert w. induction cs as [| c cs IH]; intros w Hwf Hin Hs.
  - exact Hin.
  - unfold rows_after. rewrite run_ops_snd_cons. apply IH.
    + now apply run_op_keeps_wf.
    + now apply run_op_frame.
    + exact Hs.
Qed.

(** X5. In a table with unique ids below the sequence, Enqueue returns true
    exactly when the queue is open and Begin, the INSERT and Commit succeed
    in the store: the code puts no condition of its own on the item or the
    priority, and the primary key never refuses the row, whose id comes from
    the sequence.  When Enqueue returns true the table is the old table
    followed by one pending row holding the item, the priority and the clock
    reading as created_at and updated_at, and the id of that row is larger
    than every id in the table. *)
Theorem Enqueue_succeeds_iff pq e item prio w :
  store_wf (store w) ->
  (fst (Enqueue pq e item prio w) = true <->
   closed (base pq) = false /\ begin_err e = false /\ exec_err e = false /\
   commit_err e = false) /\
  (fst (Enqueue pq e item prio w) = true ->
   rows_after (Enqueue pq e item prio) w =
     rows (store w) ++
     [mkRow (seq (store w)) item pending None false (now e) (now e) prio] /\
   Forall (fun r => id r < seq (store w)) (rows (store w))).
Proof.
  intros Hwf. split; [split |].
  - intros H. apply Enqueue_true_inv in H. tauto.
  - intros (Hc & Hb & Hx & Hm).
    pose proof (store_wf_fresh_id Hwf) as Hpk. unfold_ops.
    rewrite Hc, Hb. simpl. rewrite Hx. simpl. rewrite Hpk. simpl. rewrite Hm.
    reflexivity.
  - intros H. split; [now apply Enqueue_true_rows | apply Hwf].
Qed.

(** X6. Dequeue finds a row exactly when the queue is open, Begin, the
    scan, the DELETE and Commit succeed and the table holds a pending row.
    DequeueWithAckId finds a row exactly when the queue is open, the calls
    succeed and the minted ack id is not already stored on a row other than
    the selected one. *)
Theorem dequeue_finds_iff pq e w :
  (snd (fst (Dequeue pq e w)) = true <->
   closed (base pq) = false /\ healthy e = true /\
   exists r, In r (rows (store w)) /\ status r = pending) /\
  (found (fst (DequeueWithAckId pq e w)) = true <->
   closed (base pq) = false /\ healthy e = true /\
   exists r, query_next (tie e) (rows (store w)) = Some r /\
             ack_conflict (cuid_New (cuid_blocks e)) (id r) (rows (store w)) = false).
Proof.
  split; split.
  - rewrite Dequeue_unfold. simpl. intros H.
    destruct (dequeueInternal_found_inv _ _ _ _ H) as (r & Hq & Hc & He & _).
    apply query_next_sound in Hq. destruct Hq as (Hin & Hp & _). eauto.
  - intros (Hc & He & r0 & Hin & Hp).
    destruct (query_next_Some_of_pending (tie e) _ _ Hin Hp) as [r Hq].
    rewrite Dequeue_unfold. simpl.
    rewrite (@dequeueInternal_ok pq e false w r Hc He Hq); [reflexivity | discriminate].
  - unfold DequeueWithAckId. intros H.
    destruct (dequeueInternal_found_inv _ _ _ _ H) as (r & Hq & Hc & He & Hu).
    eauto 6.
  - unfold DequeueWithAckId. intros (Hc & He & r & Hq & Hu).
    rewrite (@dequeueInternal_ok pq e true w r Hc He Hq); [reflexivity | auto].
Qed.

(* ------------------------------------------------------------------ *)
(** ** Enqueue followed by dequeue *)

Lemma filter_keep_all {A} (p : A -> bool) l :
  (forall x, In x l -> p x = true) -> filter p l = l.
Proof.
  induction l as [| x l IH]; simpl; intros H; [reflexivity |].
  rewrite (H x (or_introl eq_refl)). f_equal. apply IH. auto.
Qed.

Lemma filter_drop_new n l new :
  Forall (fun r => id r < n) l -> id new = n ->
  filter (fun r => negb (has_id n r)) (l ++ [new]) = l.
Proof.
  intros Hb Hn. rewrite filter_app. simpl. unfold has_id at 2.
  rewrite Hn, Z.eqb_refl. simpl. rewrite app_nil_r.
  apply filter_keep_all. intros x Hx. rewrite Forall_forall in Hb.
  specialize (Hb x Hx). unfold has_id. apply negb_true_iff. apply Z.eqb_neq. lia.
Qed.

Lemma run_op_dequeue_op pq e b w :
  run_op pq (e, dequeue_op b) w =
    ((if b then RDequeueWithAckId (fst (dequeueInternal pq e b w))
      else RDequeue (fst (fst (dequeueInternal pq e b w)))),
     snd (dequeueInternal pq e b w)).
Proof.
  destruct b; simpl; [apply run_op_DequeueWithAckId | apply run_op_Dequeue].
Qed.

Lemma run_op_dequeue_ok pq e b w r :
  closed (base pq) = false -> healthy e = true ->
  query_next (tie e) (rows (store w)) = Some r ->
  (b = true -> forall r', In r' (rows (store w)) ->
               ack_id r' <> Some (cuid_New (cuid_blocks e))) ->
  fst (run_op pq (e, dequeue_op b) w) = delivery e b (Some r) /\
  store (snd (run_op pq (e, dequeue_op b) w)) =
    mkStore (if b
             then map (mark_processing (cuid_New (cuid_blocks e)) (now e) (id r))
                      (rows (store w))
             else filter (fun r' => negb (has_id (id r) r')) (rows (store w)))
            (seq (store w)).
Proof.
  intros Hc He Hq Hf.
  assert (Hu : b = true ->
               ack_conflict (cuid_New (cuid_blocks e)) (id r) (rows (store w)) = false)
    by (intros Hb; apply fresh_no_conflict; auto).
  rewrite run_op_dequeue_op.
  rewrite (@dequeueInternal_ok pq e b w r Hc He Hq Hu). simpl.
  destruct b; simpl; auto.
Qed.

Lemma run_op_dequeue_none pq e b w :
  pending_rows (rows (store w)) = [] ->
  fst (run_op pq (e, dequeue_op b) w) = delivery e b None /\
  store (snd (run_op pq (e, dequeue_op b) w)) = store w.
Proof.
  intros Hp. rewrite run_op_dequeue_op. simpl.
  destruct (@dequeueInternal_no_pending pq e b w Hp) as [Hres Hrows].
  pose proof (dequeueInternal_seq pq e b w) as Hseq.
  unfold rows_after in Hrows. rewrite Hres. split.
  - now destruct b.
  - destruct (store (snd (dequeueInternal pq e b w))) as [l n], (store w) as [l0 n0].
    simpl in *. congruence.
Qed.

Lemma run_op_Enqueue_ok pq e item prio w :
  store_wf (store w) -> closed (base pq) = false -> healthy e = true ->
  fst (run_op pq (e, OpEnqueue item prio) w) = REnqueue true /\
  store (snd (run_op pq (e, OpEnqueue item prio) w)) =
    mkStore (rows (store w) ++ [inserted_row (seq (store w)) item (now e) prio])
            (seq (store w) + 1).
Proof.
  intros Hwf Hc He. rewrite run_op_Enqueue.
  rewrite (@Enqueue_ok pq e item prio w Hc He (store_wf_fresh_id Hwf)). auto.
Qed.

Lemma key_lt_not_le r r' : key_lt r r' -> ~ key_le r' r.
Proof. unfold key_lt, key_le. lia. Qed.

(** X7. On an open queue whose store calls succeed, an item enqueued with a
    key (priority, clock reading) strictly before the key of every pending
    row is the next one served: the dequeue that follows returns its
    payload, and a plain Dequeue leaves the table exactly as it was before
    the Enqueue.  On a queue with no pending row this is the round trip
    Enqueue, Dequeue for any payload and any priority. *)
Theorem lowest_key_enqueued_is_served_next pq e1 e2 b item prio w :
  store_wf (store w) ->
  closed (base pq) = false -> healthy e1 = true -> healthy e2 = true ->
  (forall r, In r (rows (store w)) -> status r = pending ->
             key_lt (inserted_row (seq (store w)) item (now e1) prio) r) ->
  (b = true -> forall r, In r (rows (store w)) ->
               ack_id r <> Some (cuid_New (cuid_blocks e2))) ->
  fst (run_ops pq [(e1, OpEnqueue item prio); (e2, dequeue_op b)] w) =
    [REnqueue true;
     delivery e2 b (Some (inserted_row (seq (store w)) item (now e1) prio))] /\
  (b = false ->
   rows_after (run_ops pq [(e1, OpEnqueue item prio); (e2, dequeue_op b)]) w =
     rows (store w)).
Proof.
  intros Hwf Hc He1 He2 Hfirst Hfresh.
  set (new := inserted_row (seq (store w)) item (now e1) prio).
  destruct (@run_op_Enqueue_ok pq e1 item prio w Hwf Hc He1) as [R1 S1].
  fold new in S1.
  set (w1 := snd (run_op pq (e1, OpEnqueue item prio) w)) in *.
  assert (Hq : query_next (tie e2) (rows (store w1)) = Some new).
  { rewrite S1. simpl. apply query_next_unique.
    - apply in_app_iff. right. now left.
    - reflexivity.
    - intros r' (Hin & Hp & Hmin). apply in_app_iff in Hin.
      destruct Hin as [Hin | [<- | []]]; [| reflexivity]. exfalso.
      apply (key_lt_not_le (Hfirst r' Hin Hp)). apply Hmin; [| reflexivity].
      apply in_app_iff. right. now left. }
  assert (Hf1 : b = true -> forall r', In r' (rows (store w1)) ->
                            ack_id r' <> Some (cuid_New (cuid_blocks e2))).
  { intros Hb r' Hin. rewrite S1 in Hin. simpl in Hin. apply in_app_iff in Hin.
    destruct Hin as [Hin | [<- | []]]; [auto | discriminate]. }
  destruct (@run_op_dequeue_ok pq e2 b w1 new Hc He2 Hq Hf1) as [R2 S2].
  unfold rows_after. rewrite run_ops_cons. fold w1.
  rewrite run_ops_cons. simpl. rewrite R1, R2. split; [reflexivity |].
  intros ->. rewrite S2, S1. simpl. apply filter_drop_new; [apply Hwf | reflexivity].
Qed.

(** X8. On an open queue whose store calls succeed, an item enqueued while
    some pending row has a key (priority, created_at) strictly before the
    item's key is not served by the next dequeue: that dequeue returns the
    payload of a row that was pending before, and the new row stays in the
    table, pending. *)
Theorem enqueued_item_waits_behind_lower_keys pq e1 e2 b item prio w r0 :
  store_wf (store w) ->
  closed (base pq) = false -> healthy e1 = true -> healthy e2 = true ->
  In r0 (rows (store w)) -> status r0 = pending ->
  key_lt r0 (inserted_row (seq (store w)) item (now e1) prio) ->
  (b = true -> forall r, In r (rows (store w)) ->
               ack_id r <> Some (cuid_New (cuid_blocks e2))) ->
  exists r,
    In r (rows (store w)) /\ status r = pending /\
    fst (run_ops pq [(e1, OpEnqueue item prio); (e2, dequeue_op b)] w) =
      [REnqueue true; delivery e2 b (Some r)] /\
    In (inserted_row (seq (store w)) item (now e1) prio)
       (rows_after (run_ops pq [(e1, OpEnqueue item prio); (e2, dequeue_op b)]) w).
Proof.
  intros Hwf Hc He1 He2 Hin0 Hp0 Hlt Hfresh.
  set (new := inserted_row (seq (store w)) item (now e1) prio) in *.
  destruct (@run_op_Enqueue_ok pq e1 item prio w Hwf Hc He1) as [R1 S1].
  fold new in S1.
  set (w1 := snd (run_op pq (e1, OpEnqueue item prio) w)) in *.
  assert (Hin1 : In r0 (rows (store w1))).
  { rewrite S1. simpl. apply in_app_iff. now left. }
  destruct (query_next_Some_of_pending (tie e2) _ _ Hin1 Hp0) as [r Hq].
  pose proof (query_next_sound _ _ Hq) as (Hr & Hp & Hmin).
  assert (Hold : In r (rows (store w))).
  { rewrite S1 in Hr. simpl in Hr. apply in_app_iff in Hr.
    destruct Hr as [Hr | [<- | []]]; [exact Hr |]. exfalso.
    apply (key_lt_not_le Hlt). now apply Hmin. }
  assert (Hf1 : b = true -> forall r', In r' (rows (store w1)) ->
                            ack_id r' <> Some (cuid_New (cuid_blocks e2))).
  { intros Hb r' Hin. rewrite S1 in Hin. simpl in Hin. apply in_app_iff in Hin.
    destruct Hin as [Hin | [<- | []]]; [auto | discriminate]. }
  destruct (@run_op_dequeue_ok pq e2 b w1 r Hc He2 Hq Hf1) as [R2 S2].
  exists r. split; [exact Hold |]. split; [exact Hp |].
  unfold rows_after. rewrite run_ops_cons. fold w1.
  rewrite run_ops_cons. simpl. rewrite R1, R2. split; [reflexivity |].
  rewrite S2, S1. simpl.
  assert (Hid : has_id (id r) new = false).
  { unfold has_id. apply Z.eqb_neq. destruct Hwf as [_ Hb].
    rewrite Forall_forall in Hb. specialize (Hb r Hold). simpl. lia. }
  destruct b.
  - apply in_map_iff. exists new. split.
    + unfold mark_processing. now rewrite Hid.
    + apply in_app_iff. right. now left.
  - apply filter_In. split; [apply in_app_iff; right; now left |]. now rewrite Hid.
Qed.

(* ------------------------------------------------------------------ *)
(** ** Draining the queue *)

Lemma pending_after_delete l r :
  NoDup (map id l) -> In r l -> status r = pending ->
  Permutation (pending_rows l)
              (r :: pending_rows (filter (fun x => negb (has_id (id r) x)) l)).
Proof.
  induction l as [| x l IH]; simpl; intros Hn Hin Hp; [destruct Hin |].
  inversion Hn as [| ? ? Hx Hl]; subst.
  destruct Hin as [-> | Hin].
  - unfold has_id at 1. rewrite Z.eqb_refl. simpl.
    unfold is_pending at 1. rewrite Hp. simpl.
    rewrite filter_keep_all; [reflexivity |].
    intros y Hy. unfold has_id. apply negb_true_iff. apply Z.eqb_neq.
    intros E. apply Hx. rewrite <- E. now apply in_map.
  - assert (Hid : has_id (id r) x = false).
    { unfold has_id. apply Z.eqb_neq. intros E. apply Hx. rewrite E. now apply in_map. }
    rewrite Hid. simpl. destruct (is_pending x).
    + rewrite perm_swap. constructor. now apply IH.
    + now apply IH.
Qed.

Lemma pending_after_mark a t l r :
  NoDup (map id l) -> In r l -> status r = pending ->
  Permutation (pending_rows l)
              (r :: pending_rows (map (mark_processing a t (id r)) l)).
Proof.
  induction l as [| x l IH]; simpl; intros Hn Hin Hp; [destruct Hin |].
  inversion Hn as [| ? ? Hx Hl]; subst.
  destruct Hin as [-> | Hin].
  - rewrite mark_processing_hit. unfold is_pending at 1 2. rewrite Hp. simpl.
    constructor. replace (map (mark_processing a t (id r)) l) with l; [reflexivity |].
    symmetry. rewrite <- (map_id l) at 2. apply map_ext_in.
    intros y Hy. unfold mark_processing.
    replace (has_id (id r) y) with false; [reflexivity |].
    symmetry. unfold has_id. apply Z.eqb_neq. intros E. apply Hx. rewrite <- E.
    now apply in_map.
  - assert (Hid : has_id (id r) x = false).
    { unfold has_id. apply Z.eqb_neq. intros E. apply Hx. rewrite E. now apply in_map. }
    assert (Hm : mark_processing a t (id r) x = x)
      by (unfold mark_processing; now rewrite Hid).
    rewrite !Hm. destruct (is_pending x).
    + rewrite perm_swap. constructor. now apply IH.
    + now apply IH.
Qed.

Lemma minted_cons eb ebs :
  minted (eb :: ebs) =
    if snd eb then cuid_New (cuid_blocks (fst eb)) :: minted ebs else minted ebs.
Proof. unfold minted. simpl. now destruct (snd eb). Qed.

Lemma mark_processing_ack a t i r b :
  ack_id (mark_processing a t i r) = Some b -> b = a \/ ack_id r = Some b.
Proof.
  unfold mark_processing. destruct (has_id i r); simpl; [| auto].
  intros [= <-]. now left.
Qed.

Lemma drain pq ebs :
  closed (base pq) = false ->
  forall w,
    store_wf (store w) ->
    forallb (fun eb => healthy (fst eb)) ebs = true ->
    NoDup (minted ebs) ->
    (forall a r, In a (minted ebs) -> In r (rows (store w)) -> ack_id r <> Some a) ->
    exists ordered,
      Permutation (pending_rows (rows (store w))) ordered /\
      StronglySorted key_le ordered /\
      fst (run_ops pq (dequeue_ops ebs) w) = serve ebs ordered /\
      Permutation (pending_rows (rows_after (run_ops pq (dequeue_ops ebs)) w))
                  (skipn (List.length ebs) ordered).
Proof.
  intros Hc. induction ebs as [| [e b] ebs IH]; intros w Hwf Hh Hnd Hfresh.
  - exists (sort_rows (pending_rows (rows (store w)))). simpl.
    split; [apply sort_rows_perm |]. split; [apply sort_rows_sorted |].
    split; [reflexivity | apply sort_rows_perm].
  - simpl in Hh. apply andb_true_iff in Hh. destruct Hh as [He Hh].
    rewrite minted_cons in Hnd, Hfresh. simpl in Hnd, Hfresh.
    assert (Hnd' : NoDup (minted ebs)).
    { destruct b; [now inversion Hnd | exact Hnd]. }
    change (dequeue_ops ((e, b) :: ebs)) with ((e, dequeue_op b) :: dequeue_ops ebs).
    unfold rows_after. rewrite run_ops_cons. simpl fst. simpl snd.
    set (w1 := snd (run_op pq (e, dequeue_op b) w)).
    destruct (pending_rows (rows (store w))) as [| p0 ps] eqn:Ep.
    + destruct (@run_op_dequeue_none pq e b w Ep) as [R1 S1]. fold w1 in S1.
      destruct (IH w1) as (ordered & Hperm & Hsort & Hres & Hrest); auto.
      { now rewrite S1. }
      { intros a r Ha Hr. rewrite S1 in Hr. apply Hfresh; [| exact Hr].
        destruct b; [now right | exact Ha]. }
      rewrite S1, Ep in Hperm. apply Permutation_nil in Hperm. subst ordered.
      exists []. split; [constructor |]. split; [constructor |].
      rewrite R1, Hres. split; [reflexivity |].
      unfold rows_after in Hrest. rewrite skipn_nil in *. exact Hrest.
    + assert (Hp0 : In p0 (pending_rows (rows (store w)))) by (rewrite Ep; now left).
      apply pending_rows_In in Hp0. destruct Hp0 as [Hin0 Hst0].
      destruct (query_next_Some_of_pending (tie e) _ _ Hin0 Hst0) as [r Hq].
      pose proof (query_next_sound _ _ Hq) as (Hr & Hp & Hmin).
      assert (Hf : b = true -> forall r', In r' (rows (store w)) ->
                               ack_id r' <> Some (cuid_New (cuid_blocks e))).
      { intros -> r' Hr'. apply Hfresh; [now left | exact Hr']. }
      destruct (@run_op_dequeue_ok pq e b w r Hc He Hq Hf) as [R1 S1]. fold w1 in S1.
      assert (Hwf1 : store_wf (store w1)) by (apply run_op_keeps_wf; exact Hwf).
      assert (Hstep : Permutation (pending_rows (rows (store w)))
                                  (r :: pending_rows (rows (store w1)))).
      { rewrite S1. simpl. destruct Hwf as [Hn _]. destruct b.
        - now apply pending_after_mark.
        - now apply pending_after_delete. }
      destruct (IH w1) as (ordered & Hperm & Hsort & Hres & Hrest); auto.
      { intros a r' Ha Hr'. rewrite S1 in Hr'. simpl in Hr'. destruct b.
        - apply in_map_iff in Hr'. destruct Hr' as (y & <- & Hy). intros E.
          apply mark_processing_ack in E. destruct E as [-> | E].
          + inversion Hnd; auto.
          + revert E. apply Hfresh; [now right | exact Hy].
        - apply filter_In in Hr'. apply Hfresh; [exact Ha | tauto]. }
      exists (r :: ordered). rewrite <- Ep.
      split; [rewrite Hstep; now constructor |].
      split.
      { constructor; [exact Hsort |]. apply Forall_forall. intros x Hx.
        assert (Hx' : In x (pending_rows (rows (store w)))).
        { eapply Permutation_in; [symmetry; exact Hstep |]. right.
          eapply Permutation_in; [symmetry; exact Hperm | exact Hx]. }
        apply pending_rows_In in Hx'. destruct Hx'. auto. }
      rewrite R1, Hres. split; [reflexivity | exact Hrest].
Qed.

(** X9. On an open queue with unique ids whose store calls succeed, any run
    of Dequeue and DequeueWithAckId calls (with ack ids that are new to the
    table and differ from each other) serves the pending rows in an order
    sorted by (priority, created_at): the answers are the payloads of the
    first rows of one sorted arrangement of the pending rows, one row per
    call and no row twice, then not found once the pending rows are used up.
    With M pending rows before and N calls, M - N rows (none if N exceeds M)
    are pending afterwards. *)
Theorem dequeues_serve_in_key_order pq ebs w :
  closed (base pq) = false ->
  store_wf (store w) ->
  forallb (fun eb => healthy (fst eb)) ebs = true ->
  NoDup (minted ebs) ->
  (forall a r, In a (minted ebs) -> In r (rows (store w)) -> ack_id r <> Some a) ->
  exists ordered,
    Permutation (pending_rows (rows (store w))) ordered /\
    StronglySorted key_le ordered /\
    NoDup (map id ordered) /\
    fst (run_ops pq (dequeue_ops ebs) w) = serve ebs ordered /\
    Permutation (pending_rows (rows_after (run_ops pq (dequeue_ops ebs)) w))
                (skipn (List.length ebs) ordered) /\
    List.length (pending_rows (rows_after (run_ops pq (dequeue_ops ebs)) w)) =
      (List.length (pending_rows (rows (store w))) - List.length ebs)%nat.
Proof.
  intros Hc Hwf Hh Hnd Hfresh.
  destruct (drain pq ebs Hc w Hwf Hh Hnd Hfresh) as (ordered & Hperm & Hsort & Hres & Hrest).
  exists ordered. split; [exact Hperm |]. split; [exact Hsort |].
  split.
  { eapply Permutation_NoDup; [apply Permutation_map; exact Hperm |].
    apply NoDup_map_filter. apply Hwf. }
  split; [exact Hres |]. split; [exact Hrest |].
  rewrite (Permutation_length Hrest), length_skipn, (Permutation_length Hperm).
  reflexivity.
Qed.

(* ------------------------------------------------------------------ *)
(** ** First in, first out *)

Lemma key_lt_le r r' : key_lt r r' -> key_le r r'.
Proof. unfold key_lt, key_le. lia. Qed.

Lemma sorted_arrangement_unique l :
  StronglySorted key_lt l ->
  forall l', Permutation l l' -> StronglySorted key_le l' -> l' = l.
Proof.
  induction 1 as [| a l Hs IH Ha]; intros l' Hperm Hs'.
  - apply Permutation_nil in Hperm. now subst.
  - destruct l' as [| a' t'].
    { apply Permutation_sym, Permutation_nil in Hperm. discriminate. }
    apply StronglySorted_inv in Hs'. destruct Hs' as [Hs' Ha'].
    assert (E : a' = a).
    { assert (Hin' : In a' (a :: l)).
      { eapply Permutation_in; [symmetry; exact Hperm | now left]. }
      destruct Hin' as [-> | Hin']; [reflexivity |]. exfalso.
      assert (Hin : In a (a' :: t')).
      { eapply Permutation_in; [exact Hperm | now left]. }
      rewrite Forall_forall in Ha, Ha'. specialize (Ha a' Hin').
      destruct Hin as [-> | Hin].
      - unfold key_lt in Ha. lia.
      - apply (key_lt_not_le Ha). now apply Ha'. }
    subst a'. f_equal. apply IH; [| exact Hs'].
    eapply Permutation_cons_inv. exact Hperm.
Qed.

Lemma run_ops_app pq cs1 cs2 w :
  run_ops pq (cs1 ++ cs2) w =
    (fst (run_ops pq cs1 w) ++ fst (run_ops pq cs2 (snd (run_ops pq cs1 w))),
     snd (run_ops pq cs2 (snd (run_ops pq cs1 w)))).
Proof.
  revert w. induction cs1 as [| c cs1 IH]; intros w.
  - simpl. unfold ret. simpl. now destruct (run_ops pq cs2 w).
  - rewrite <- app_comm_cons. rewrite !run_ops_cons, IH. reflexivity.
Qed.

Lemma enqueue_all pq items :
  closed (base pq) = false ->
  forallb (fun x => healthy (fst (fst x))) items = true ->
  forall w,
    store_wf (store w) ->
    fst (run_ops pq (enqueue_ops items) w) = map (fun _ => REnqueue true) items /\
    store (snd (run_ops pq (enqueue_ops items) w)) =
      mkStore (rows (store w) ++ inserted_rows (seq (store w)) items)
              (seq (store w) + Z.of_nat (List.length items)).
Proof.
  intros Hc. induction items as [| [[e item] prio] items IH]; intros Hh w Hwf.
  - simpl. unfold ret. simpl. rewrite app_nil_r, Z.add_0_r. now destruct (store w).
  - simpl in Hh. apply andb_true_iff in Hh. destruct Hh as [He Hh].
    change (enqueue_ops ((e, item, prio) :: items))
      with ((e, OpEnqueue item prio) :: enqueue_ops items).
    rewrite run_ops_cons. cbn [fst snd].
    destruct (@run_op_Enqueue_ok pq e item prio w Hwf Hc He) as [R1 S1].
    set (w1 := snd (run_op pq (e, OpEnqueue item prio) w)) in *.
    assert (Hwf1 : store_wf (store w1)) by (apply run_op_keeps_wf; exact Hwf).
    destruct (IH Hh w1 Hwf1) as [R2 S2].
    rewrite R1, R2, S2, S1. cbn [rows seq map fst snd inserted_rows List.length].
    split; [reflexivity |]. rewrite <- app_assoc. cbn [app]. f_equal. lia.
Qed.

Lemma pending_rows_app l1 l2 :
  pending_rows (l1 ++ l2) = pending_rows l1 ++ pending_rows l2.
Proof. apply filter_app. Qed.

Lemma inserted_rows_pending n items :
  pending_rows (inserted_rows n items) = inserted_rows n items.
Proof.
  revert n. induction items as [| x items IH]; intros n; simpl; [reflexivity |].
  unfold pending_rows in *. now rewrite IH.
Qed.

Lemma inserted_rows_ack n items r :
  In r (inserted_rows n items) -> ack_id r = None.
Proof.
  revert n. induction items as [| x items IH]; intros n; simpl; [tauto |].
  intros [<- | Hin]; [reflexivity | eauto].
Qed.

Lemma inserted_rows_later p n item t m items :
  Forall (fun x => snd x = p) items ->
  Forall (Z.lt t) (map (fun x => now (fst (fst x))) items) ->
  Forall (key_lt (inserted_row n item t p)) (inserted_rows m items).
Proof.
  revert m. induction items as [| y items IH]; intros m Hp Hlt; simpl; [constructor |].
  inversion Hp as [| ? ? Hy Hps]; subst. simpl in Hlt.
  inversion Hlt as [| ? ? Hxy Hlt']; subst.
  constructor; [| now apply IH].
  unfold key_lt, inserted_row. simpl. right. split; [reflexivity | exact Hxy].
Qed.

Lemma inserted_rows_fifo p n items :
  Forall (fun x => snd x = p) items ->
  StronglySorted Z.lt (map (fun x => now (fst (fst x))) items) ->
  StronglySorted key_lt (inserted_rows n items).
Proof.
  revert n. induction items as [| x items IH]; intros n Hp Ht; simpl; [constructor |].
  inversion Hp as [| ? ? Hx Hps]; subst. simpl in Ht.
  apply StronglySorted_inv in Ht. destruct Ht as [Ht Hlt].
  constructor; [now apply IH |]. now apply inserted_rows_later.
Qed.

Lemma enqueue_then_dequeue pq items ebs w target :
  closed (base pq) = false ->
  store_wf (store w) ->
  pending_rows (rows (store w)) = [] ->
  forallb (fun x => healthy (fst (fst x))) items = true ->
  forallb (fun eb => healthy (fst eb)) ebs = true ->
  Permutation (inserted_rows (seq (store w)) items) target ->
  StronglySorted key_lt target ->
  NoDup (minted ebs) ->
  (forall a r, In a (minted ebs) -> In r (rows (store w)) -> ack_id r <> Some a) ->
  fst (run_ops pq (enqueue_ops items ++ dequeue_ops ebs) w) =
    map (fun _ => REnqueue true) items ++ serve ebs target.
Proof.
  intros Hc Hwf Hnone Hhi Hhe Hperm Hsort Hnd Hfresh.
  rewrite run_ops_app. cbn [fst].
  destruct (enqueue_all pq items Hc Hhi w Hwf) as [R1 S1].
  set (w1 := snd (run_ops pq (enqueue_ops items) w)) in *.
  assert (Hwf1 : store_wf (store w1)).
  { unfold w1. clear -Hwf. revert w Hwf.
    induction (enqueue_ops items) as [| c cs IH]; intros w Hwf; [exact Hwf |].
    rewrite run_ops_snd_cons. apply IH. now apply run_op_keeps_wf. }
  assert (Hfresh1 : forall a r, In a (minted ebs) -> In r (rows (store w1)) ->
                                ack_id r <> Some a).
  { intros a r Ha Hr. rewrite S1 in Hr. simpl in Hr. apply in_app_iff in Hr.
    destruct Hr as [Hr | Hr]; [now apply Hfresh |].
    rewrite (inserted_rows_ack _ _ _ Hr). discriminate. }
  destruct (drain pq ebs Hc w1 Hwf1 Hhe Hnd Hfresh1)
    as (ordered & Hp & Hs & Hres & _).
  rewrite S1 in Hp. simpl in Hp.
  rewrite pending_rows_app, Hnone, inserted_rows_pending in Hp. simpl in Hp.
  assert (E : ordered = target).
  { apply sorted_arrangement_unique; [exact Hsort | | exact Hs].
    rewrite <- Hperm. exact Hp. }
  rewrite R1, Hres, E. reflexivity.
Qed.

(** X10. On an open queue with unique ids whose store calls succeed, a run
    of Enqueue calls all return true and append their rows to the table in
    call order, pending, with consecutive ids starting at the sequence
    value, and move the sequence on by the number of calls. *)
Theorem enqueues_append_in_order pq items w :
  closed (base pq) = false ->
  store_wf (store w) ->
  forallb (fun x => healthy (fst (fst x))) items = true ->
  fst (run_ops pq (enqueue_ops items) w) = map (fun _ => REnqueue true) items /\
  store (snd (run_ops pq (enqueue_ops items) w)) =
    mkStore (rows (store w) ++ inserted_rows (seq (store w)) items)
            (seq (store w) + Z.of_nat (List.length items)).
Proof.
  intros Hc Hwf Hh. now apply enqueue_all.
Qed.

(** X11. First in, first out among equal priorities: on an open queue with
    no pending row whose store calls succeed, items enqueued with the same
    priority at strictly increasing clock readings are returned by the
    dequeues that follow in the order they were enqueued, then not found. *)
Theorem equal_priority_is_fifo pq p items ebs w :
  closed (base pq) = false ->
  store_wf (store w) ->
  pending_rows (rows (store w)) = [] ->
  forallb (fun x => healthy (fst (fst x))) items = true ->
  forallb (fun eb => healthy (fst eb)) ebs = true ->
  Forall (fun x => snd x = p) items ->
  StronglySorted Z.lt (map (fun x => now (fst (fst x))) items) ->
  NoDup (minted ebs) ->
  (forall a r, In a (minted ebs) -> In r (rows (store w)) -> ack_id r <> Some a) ->
  fst (run_ops pq (enqueue_ops items ++ dequeue_ops ebs) w) =
    map (fun _ => REnqueue true) items ++
    serve ebs (inserted_rows (seq (store w)) items).
Proof.
  intros Hc Hwf Hnone Hhi Hhe Hp Ht Hnd Hfresh.
  apply enqueue_then_dequeue; auto. eapply inserted_rows_fifo; eauto.
Qed.

Lemma key_le_distinct_lt r r' :
  key_le r r' -> (priority r, created_at r) <> (priority r', created_at r') ->
  key_lt r r'.
Proof.
  unfold key_le, key_lt. intros H N.
  destruct (Z.eq_dec (created_at r) (created_at r')) as [E | E]; [| lia].
  destruct H as [H | [H1 H2]]; [now left |]. exfalso. apply N. congruence.
Qed.

Lemma sorted_distinct_strict l :
  StronglySorted key_le l ->
  NoDup (map (fun r => (priority r, created_at r)) l) ->
  StronglySorted key_lt l.
Proof.
  induction 1 as [| a l Hs IH Ha]; intros Hn; [constructor |].
  simpl in Hn. inversion Hn as [| ? ? Hx Hl]; subst.
  constructor; [now apply IH |].
  apply Forall_forall. intros x Hx'. rewrite Forall_forall in Ha.
  apply key_le_distinct_lt; [now apply Ha |].
  intros E. apply Hx. rewrite E.
  apply (in_map (fun r => (priority r, created_at r))). exact Hx'.
Qed.

Lemma inserted_rows_keys n items :
  map (fun r => (priority r, created_at r)) (inserted_rows n items) =
  map (fun x => (snd x, now (fst (fst x)))) items.
Proof.
  revert n. induction items as [| x items IH]; intros n; simpl; [reflexivity |].
  now rewrite IH.
Qed.

(** X12. The queue sorts: on an open queue with no pending row whose store
    calls succeed, items enqueued in any order with pairwise different
    (priority, clock reading) are returned by the dequeues that follow in
    ascending order of priority number and, within a priority, of clock
    reading, whatever the store's choices; then not found. *)
Theorem dequeue_order_is_sorted pq items ebs w :
  closed (base pq) = false ->
  store_wf (store w) ->
  pending_rows (rows (store w)) = [] ->
  forallb (fun x => healthy (fst (fst x))) items = true ->
  forallb (fun eb => healthy (fst eb)) ebs = true ->
  NoDup (map (fun x => (snd x, now (fst (fst x)))) items) ->
  NoDup (minted ebs) ->
  (forall a r, In a (minted ebs) -> In r (rows (store w)) -> ack_id r <> Some a) ->
  fst (run_ops pq (enqueue_ops items ++ dequeue_ops ebs) w) =
    map (fun _ => REnqueue true) items ++
    serve ebs (sort_rows (inserted_rows (seq (store w)) items)) /\
  StronglySorted key_lt (sort_rows (inserted_rows (seq (store w)) items)).
Proof.
  intros Hc Hwf Hnone Hhi Hhe Hkeys Hnd Hfresh.
  assert (Hs : StronglySorted key_lt (sort_rows (inserted_rows (seq (store w)) items))).
  { apply sorted_distinct_strict; [apply sort_rows_sorted |].
    eapply Permutation_NoDup;
      [apply Permutation_map; apply sort_rows_perm |].
    now rewrite inserted_rows_keys. }
  split; [| exact Hs].
  apply enqueue_then_dequeue; auto. apply sort_rows_perm.
Qed.

(* ------------------------------------------------------------------ *)
(** ** Ack ids handed out *)

Lemma run_op_ack_inv pq c w a :
  In a (ack_of_result (fst (run_op pq c w))) ->
  exists e r,
    c = (e, OpDequeueWithAckId) /\ a = cuid_New (cuid_blocks e) /\
    query_next (tie e) (rows (store w)) = Some r /\
    ack_conflict a (id r) (rows (store w)) = false /\
    rows (store (snd (run_op pq c w))) =
      map (mark_processing a (now e) (id r)) (rows (store w)).
Proof.
  destruct c as [e [item prio | |]].
  - rewrite run_op_Enqueue. simpl. tauto.
  - rewrite run_op_Dequeue. simpl. tauto.
  - rewrite run_op_DequeueWithAckId. simpl.
    destruct (fst (dequeueInternal pq e true w)) as [[p f] a'] eqn:E.
    destruct f; simpl; [| tauto]. intros [<- | []].
    assert (Hf : found (fst (dequeueInternal pq e true w)) = true) by now rewrite E.
    destruct (dequeueInternal_found_inv _ _ _ _ Hf) as (r & Hq & Hc & He & Hu).
    pose proof (@dequeueInternal_ok pq e true w r Hc He Hq Hu) as Hok.
    rewrite Hok in E. simpl in E. injection E as _ <-.
    exists e, r. rewrite Hok. simpl. auto 6.
Qed.

Lemma run_op_ack_held pq c w a :
  In a (ack_of_result (fst (run_op pq c w))) ->
  a <> EmptyString /\
  exists r, In r (rows (store (snd (run_op pq c w)))) /\
            status r = processing /\ ack_id r = Some a.
Proof.
  intros H. destruct (run_op_ack_inv _ _ _ _ H) as (e & r & _ & -> & Hq & _ & ->).
  split; [apply cuid_New_nonempty |].
  apply query_next_sound in Hq. destruct Hq as (Hin & _ & _).
  exists (mark_processing (cuid_New (cuid_blocks e)) (now e) (id r) r).
  split; [now apply in_map |]. now rewrite mark_processing_hit.
Qed.

Lemma run_op_ack_new pq c w a r :
  store_wf (store w) ->
  In a (ack_of_result (fst (run_op pq c w))) ->
  In r (rows (store w)) -> status r <> pending -> ack_id r <> Some a.
Proof.
  intros Hwf H Hin Hs Ha.
  destruct (run_op_ack_inv _ _ _ _ H) as (e & r1 & _ & _ & Hq & Hu & _).
  apply query_next_sound in Hq. destruct Hq as (Hin1 & Hp1 & _).
  pose proof (@other_row_other_id (store w) r r1 Hwf Hin Hin1 Hs Hp1) as Hid.
  pose proof (@no_conflict_unique a (id r1) (rows (store w)) r1 r Hu Hin1 eq_refl Hin Ha)
    as E.
  unfold has_id in Hid. apply Z.eqb_neq in Hid. contradiction.
Qed.

Lemma ack_of_result_NoDup r : NoDup (ack_of_result r).
Proof.
  destruct r as [ok | r0 | [[p [|]] a0]]; simpl; try constructor.
  - intros [].
  - constructor.
Qed.

Lemma acks_distinct pq cs :
  forall w,
    store_wf (store w) ->
    NoDup (acks_delivered (fst (run_ops pq cs w))) /\
    (forall a, In a (acks_delivered (fst (run_ops pq cs w))) -> a <> EmptyString) /\
    (forall a r, In a (acks_delivered (fst (run_ops pq cs w))) ->
                 In r (rows (store w)) -> status r <> pending -> ack_id r <> Some a).
Proof.
  induction cs as [| c cs IH]; intros w Hwf.
  - simpl. split; [constructor |]. split; intros; contradiction.
  - rewrite run_ops_fst_cons. unfold acks_delivered. simpl.
    fold (acks_delivered (fst (run_ops pq cs (snd (run_op pq c w))))).
    pose proof (run_op_keeps_wf pq c w Hwf) as Hwf1.
    destruct (IH _ Hwf1) as (Hn & Hne & Hnew).
    split; [| split].
    + apply NoDup_app; [| exact Hn |].
      * apply ack_of_result_NoDup.
      * intros a Ha Hlater.
        destruct (run_op_ack_held _ _ _ _ Ha) as (_ & r & Hin & Hs & Hr).
        apply (Hnew a r Hlater Hin); [congruence | exact Hr].
    + intros a Ha. apply in_app_iff in Ha. destruct Ha as [Ha | Ha].
      * now destruct (run_op_ack_held _ _ _ _ Ha).
      * now apply Hne.
    + intros a r Ha Hin Hs. apply in_app_iff in Ha. destruct Ha as [Ha | Ha].
      * exact (@run_op_ack_new pq c w a r Hwf Ha Hin Hs).
      * apply (Hnew a r Ha); [| exact Hs]. now apply run_op_frame.
Qed.

(** X13. In a table with unique ids, however the store answers and whatever
    cuid.New() yields, the ack ids handed out by the DequeueWithAckId calls
    of a sequence of operations are not empty, pairwise different, and
    different from the ack id of every row that was in flight or done when
    the sequence started: a call that would hand out a used ack id returns
    not found instead. *)
Theorem ack_ids_are_never_handed_out_twice pq cs w :
  store_wf (store w) ->
  NoDup (acks_delivered (fst (run_ops pq cs w))) /\
  (forall a, In a (acks_delivered (fst (run_ops pq cs w))) -> a <> EmptyString) /\
  (forall a r, In a (acks_delivered (fst (run_ops pq cs w))) ->
               In r (rows (store w)) -> status r <> pending -> ack_id r <> Some a).
Proof.
  intros Hwf. now apply acks_distinct.
Qed.

(* ------------------------------------------------------------------ *)
(** ** The two dequeues agree *)

(** X14. Dequeue and DequeueWithAckId select alike: whenever
    DequeueWithAckId finds a row, Dequeue called in its place would have
    found a row too and returned the same payload; and when Dequeue finds
    none, neither does DequeueWithAckId. *)
Theorem dequeues_agree_on_selection pq e w :
  (found (fst (DequeueWithAckId pq e w)) = true ->
   fst (Dequeue pq e w) = (payload_of (fst (DequeueWithAckId pq e w)), true)) /\
  (snd (fst (Dequeue pq e w)) = false ->
   fst (DequeueWithAckId pq e w) = not_found).
Proof.
  split.
  - unfold DequeueWithAckId. intros H.
    destruct (dequeueInternal_found_inv _ _ _ _ H) as (r & Hq & Hc & He & Hu).
    rewrite Dequeue_unfold.
    rewrite (@dequeueInternal_ok pq e true w r Hc He Hq Hu).
    rewrite (@dequeueInternal_ok pq e false w r Hc He Hq); [reflexivity | discriminate].
  - rewrite Dequeue_unfold. unfold DequeueWithAckId. simpl.
    unfold_ops. break_all.
Qed.

(* ------------------------------------------------------------------ *)
(** ** Names of sequences *)

Lemma list_ascii_of_string_app s1 s2 :
  list_ascii_of_string (s1 ++ s2) =
  (list_ascii_of_string s1 ++ list_ascii_of_string s2)%list.
Proof.
  induction s1 as [| c s1 IH]; simpl; [reflexivity | now rewrite IH].
Qed.

Lemma list_ascii_of_string_inj s1 s2 :
  list_ascii_of_string s1 = list_ascii_of_string s2 -> s1 = s2.
Proof.
  intros H. rewrite <- (string_of_list_ascii_of_string s1).
  rewrite <- (string_of_list_ascii_of_string s2). now rewrite H.
Qed.

(** X15. The sequence createPriorityTable creates for a table is named
    after the table with the suffix _id_seq: two tables have the same
    sequence name only if they have the same name, and the sequence name of
    a table is never the name of that table. *)
Theorem seqName_separates_tables name1 name2 :
  (seqName name1 = seqName name2 -> name1 = name2) /\
  seqName name1 <> name1 /\
  (createSeqSQL name1 = createSeqSQL name2 -> name1 = name2).
Proof.
  assert (Hinj : forall n1 n2, seqName n1 = seqName n2 -> n1 = n2).
  { unfold seqName. intros n1 n2 H. apply (f_equal list_ascii_of_string) in H.
    rewrite !list_ascii_of_string_app in H. apply app_inv_tail in H.
    now apply list_ascii_of_string_inj. }
  split; [apply Hinj |]. split.
  - unfold seqName. intros H. apply (f_equal list_ascii_of_string) in H.
    rewrite list_ascii_of_string_app in H.
    apply (f_equal (@List.length ascii)) in H. rewrite length_app in H.
    simpl in H. lia.
  - unfold createSeqSQL. intros H. apply (f_equal list_ascii_of_string) in H.
    rewrite !list_ascii_of_string_app in H. apply app_inv_head in H.
    apply app_inv_tail in H. apply list_ascii_of_string_inj in H. now apply Hinj.
Qed.

(* ------------------------------------------------------------------ *)
(** ** The properties at concrete inputs *)

Lemma tied_world_wf : store_wf (store tied_world).
Proof.
  split; simpl.
  - repeat constructor; simpl; intuition discriminate.
  - repeat constructor; simpl; lia.
Qed.

Lemma fresh_world_wf : store_wf (store fresh_world).
Proof. split; simpl; constructor. Qed.

Lemma four_dequeues_minted :
  NoDup (minted four_dequeues) /\
  (forall a r, In a (minted four_dequeues) -> In r (rows (store tied_world)) ->
               ack_id r <> Some a) /\
  (forall a r, In a (minted four_dequeues) -> In r (rows (store fresh_world)) ->
               ack_id r <> Some a).
Proof.
  split; [| split].
  - repeat constructor; simpl; intuition discriminate.
  - intros a r Ha Hr. simpl in Ha, Hr.
    destruct Ha as [<- | [<- | []]]; destruct Hr as [<- | [<- | [<- | []]]];
      discriminate.
  - intros a r _ [].
Qed.

(** X1 on [tied_world] with an enqueue and both kinds of dequeue. *)
Lemma ids_stay_unique_witness :
  store_wf (store tied_world) /\
  store_wf (store (snd (run_ops tasks mixed_ops tied_world))) /\
  seq (store tied_world) <= seq (store (snd (run_ops tasks mixed_ops tied_world))) /\
  forall r, In r (rows_after (run_ops tasks mixed_ops) tied_world) ->
            (exists r0, In r0 (rows (store tied_world)) /\ id r0 = id r) \/
            seq (store tied_world) <= id r.
Proof.
  split; [exact tied_world_wf |].
  exact (@ids_stay_unique tasks mixed_ops tied_world tied_world_wf).
Defined.

(** X4: row 3 of [tied_world] is in flight. *)
Lemma rows_not_pending_are_untouched_witness :
  (store_wf (store tied_world) /\ In row_3 (rows (store tied_world)) /\
   status row_3 <> pending) /\
  In row_3 (rows_after (run_ops tasks mixed_ops) tied_world).
Proof.
  assert (Hin : In row_3 (rows (store tied_world))) by (simpl; auto).
  assert (Hs : status row_3 <> pending) by discriminate.
  split; [split; [exact tied_world_wf | split; assumption] |].
  exact (@rows_not_pending_are_untouched tasks mixed_ops tied_world row_3
           tied_world_wf Hin Hs).
Defined.

(** X5 on [tied_world] with a store that answers every call. *)
Lemma Enqueue_succeeds_iff_witness :
  store_wf (store tied_world) /\
  fst (Enqueue tasks (calm 0 200 "") task_C (-3) tied_world) = true /\
  rows_after (Enqueue tasks (calm 0 200 "") task_C (-3)) tied_world =
    rows (store tied_world) ++ [mkRow 4 task_C pending None false 200 200 (-3)] /\
  Forall (fun r => id r < seq (store tied_world)) (rows (store tied_world)).
Proof.
  split; [exact tied_world_wf |].
  destruct (@Enqueue_succeeds_iff tasks (calm 0 200 "") task_C (-3) tied_world
              tied_world_wf) as [Hiff Hrows].
  assert (Ht : fst (Enqueue tasks (calm 0 200 "") task_C (-3) tied_world) = true)
    by (apply Hiff; repeat split; reflexivity).
  split; [exact Ht |]. exact (Hrows Ht).
Defined.

(** X6 on [tied_world]. *)
Lemma dequeue_finds_iff_witness :
  (closed (base tasks) = false /\ healthy (calm 0 200 "k9") = true /\
   exists r, In r (rows (store tied_world)) /\ status r = pending) /\
  snd (fst (Dequeue tasks (calm 0 200 "k9") tied_world)) = true.
Proof.
  assert (H : closed (base tasks) = false /\ healthy (calm 0 200 "k9") = true /\
              exists r, In r (rows (store tied_world)) /\ status r = pending).
  { split; [reflexivity |]. split; [reflexivity |]. exists row_1. simpl. auto. }
  split; [exact H |].
  exact (proj2 (proj1 (dequeue_finds_iff tasks (calm 0 200 "k9") tied_world)) H).
Defined.

(** X7: an item of priority -1 enqueued into [tied_world], whose pending
    rows have priority 0. *)
Lemma lowest_key_enqueued_is_served_next_witness :
  (store_wf (store tied_world) /\ closed (base tasks) = false /\
   healthy (calm 0 200 "") = true /\ healthy (calm 0 300 "") = true) /\
  fst (run_ops tasks [(calm 0 200 "", OpEnqueue task_C (-1));
                      (calm 0 300 "", dequeue_op false)] tied_world) =
    [REnqueue true; RDequeue (Some task_C, true)] /\
  rows_after (run_ops tasks [(calm 0 200 "", OpEnqueue task_C (-1));
                             (calm 0 300 "", dequeue_op false)]) tied_world =
    rows (store tied_world).
Proof.
  split; [split; [exact tied_world_wf | repeat split] |].
  assert (Hfirst : forall r, In r (rows (store tied_world)) -> status r = pending ->
                     key_lt (inserted_row (seq (store tied_world)) task_C
                                          (now (calm 0 200 "")) (-1)) r).
  { intros r Hin Hp. simpl in Hin.
    destruct Hin as [<- | [<- | [<- | []]]]; try discriminate;
      left; simpl; lia. }
  destruct (@lowest_key_enqueued_is_served_next tasks (calm 0 200 "") (calm 0 300 "")
              false task_C (-1) tied_world tied_world_wf eq_refl eq_refl eq_refl
              Hfirst) as [H1 H2]; [discriminate |].
  split; [exact H1 | exact (H2 eq_refl)].
Defined.

(** X8: an item of priority 9 enqueued into [tied_world] waits behind the
    pending rows of priority 0. *)
Lemma enqueued_item_waits_behind_lower_keys_witness :
  (store_wf (store tied_world) /\ closed (base tasks) = false /\
   In row_1 (rows (store tied_world)) /\ status row_1 = pending /\
   key_lt row_1 (inserted_row (seq (store tied_world)) task_C 200 9)) /\
  exists r,
    In r (rows (store tied_world)) /\ status r = pending /\
    fst (run_ops tasks [(calm 0 200 "", OpEnqueue task_C 9);
                        (calm 0 300 "", dequeue_op false)] tied_world) =
      [REnqueue true; delivery (calm 0 300 "") false (Some r)] /\
    In (inserted_row (seq (store tied_world)) task_C 200 9)
       (rows_after (run_ops tasks [(calm 0 200 "", OpEnqueue task_C 9);
                                   (calm 0 300 "", dequeue_op false)]) tied_world).
Proof.
  assert (Hin : In row_1 (rows (store tied_world))) by (simpl; auto).
  assert (Hlt : key_lt row_1 (inserted_row (seq (store tied_world)) task_C
                                           (now (calm 0 200 "")) 9))
    by (left; simpl; lia).
  split; [split; [exact tied_world_wf | repeat split; assumption] |].
  apply (@enqueued_item_waits_behind_lower_keys tasks (calm 0 200 "") (calm 0 300 "")
           false task_C 9 tied_world row_1 tied_world_wf eq_refl eq_refl eq_refl
           Hin eq_refl Hlt).
  discriminate.
Defined.

(** X9: four dequeues on [tied_world], which holds two pending rows. *)
Lemma dequeues_serve_in_key_order_witness :
  (closed (base tasks) = false /\ store_wf (store tied_world) /\
   forallb (fun eb => healthy (fst eb)) four_dequeues = true /\
   NoDup (minted four_dequeues)) /\
  exists ordered,
    Permutation (pending_rows (rows (store tied_world))) ordered /\
    StronglySorted key_le ordered /\
    NoDup (map id ordered) /\
    fst (run_ops tasks (dequeue_ops four_dequeues) tied_world) =
      serve four_dequeues ordered /\
    Permutation
      (pending_rows (rows_after (run_ops tasks (dequeue_ops four_dequeues)) tied_world))
      (skipn (List.length four_dequeues) ordered) /\
    List.length
      (pending_rows (rows_after (run_ops tasks (dequeue_ops four_dequeues)) tied_world)) =
      (List.length (pending_rows (rows (store tied_world))) -
       List.length four_dequeues)%nat.
Proof.
  destruct four_dequeues_minted as (Hnd & Hfresh & _).
  split; [split; [reflexivity | split; [exact tied_world_wf | split; [reflexivity | exact Hnd]]] |].
  exact (@dequeues_serve_in_key_order tasks four_dequeues tied_world eq_refl
           tied_world_wf eq_refl Hnd Hfresh).
Defined.

(** X10: the three items of [mixed_items] enqueued into the fresh queue. *)
Lemma enqueues_append_in_order_witness :
  (closed (base tasks) = false /\ store_wf (store fresh_world) /\
   forallb (fun x => healthy (fst (fst x))) mixed_items = true) /\
  fst (run_ops tasks (enqueue_ops mixed_items) fresh_world) =
    [REnqueue true; REnqueue true; REnqueue true] /\
  store (snd (run_ops tasks (enqueue_ops mixed_items) fresh_world)) =
    mkStore [mkRow 1 task_A pending None false 100 100 5;
             mkRow 2 task_B pending None false 200 200 1;
             mkRow 3 task_C pending None false 300 300 5] 4.
Proof.
  split; [split; [reflexivity | split; [exact fresh_world_wf | reflexivity]] |].
  exact (@enqueues_append_in_order tasks mixed_items fresh_world eq_refl
           fresh_world_wf eq_refl).
Defined.

(** X11: three items of priority 5, then four dequeues. *)
Lemma equal_priority_is_fifo_witness :
  (closed (base tasks) = false /\ store_wf (store fresh_world) /\
   pending_rows (rows (store fresh_world)) = [] /\
   Forall (fun x => snd x = 5) fifo_items /\
   StronglySorted Z.lt (map (fun x => now (fst (fst x))) fifo_items)) /\
  fst (run_ops tasks (enqueue_ops fifo_items ++ dequeue_ops four_dequeues) fresh_world) =
    [REnqueue true; REnqueue true; REnqueue true;
     RDequeueWithAckId (Some task_A, true, cuid_New "k1");
     RDequeue (Some task_B, true);
     RDequeueWithAckId (Some task_C, true, cuid_New "k3");
     RDequeue (None, false)].
Proof.
  assert (Hp : Forall (fun x : Env * bytes * Z => snd x = 5) fifo_items)
    by (repeat constructor).
  assert (Ht : StronglySorted Z.lt (map (fun x => now (fst (fst x))) fifo_items))
    by (repeat constructor; simpl; lia).
  destruct four_dequeues_minted as (Hnd & _ & Hfresh).
  split; [split; [reflexivity | split; [exact fresh_world_wf | split; [reflexivity | split; [exact Hp | exact Ht]]]] |].
  exact (@equal_priority_is_fifo tasks 5 fifo_items four_dequeues fresh_world eq_refl
           fresh_world_wf eq_refl eq_refl eq_refl Hp Ht Hnd Hfresh).
Defined.

(** X12: priorities 5, 1, 5, then four dequeues. *)
Lemma dequeue_order_is_sorted_witness :
  (closed (base tasks) = false /\ store_wf (store fresh_world) /\
   pending_rows (rows (store fresh_world)) = [] /\
   NoDup (map (fun x => (snd x, now (fst (fst x)))) mixed_items)) /\
  fst (run_ops tasks (enqueue_ops mixed_items ++ dequeue_ops four_dequeues) fresh_world) =
    [REnqueue true; REnqueue true; REnqueue true;
     RDequeueWithAckId (Some task_B, true, cuid_New "k1");
     RDequeue (Some task_A, true);
     RDequeueWithAckId (Some task_C, true, cuid_New "k3");
     RDequeue (None, false)].
Proof.
  assert (Hk : NoDup (map (fun x : Env * bytes * Z => (snd x, now (fst (fst x))))
                          mixed_items))
    by (repeat constructor; simpl; intuition discriminate).
  destruct four_dequeues_minted as (Hnd & _ & Hfresh).
  split; [split; [reflexivity | split; [exact fresh_world_wf | split; [reflexivity | exact Hk]]] |].
  exact (proj1 (@dequeue_order_is_sorted tasks mixed_items four_dequeues fresh_world
                  eq_refl fresh_world_wf eq_refl eq_refl eq_refl Hk Hnd Hfresh)).
Defined.

(** X13 on [tied_world]: two dequeues that mint the same ack id. *)
Lemma ack_ids_are_never_handed_out_twice_witness :
  store_wf (store tied_world) /\
  fst (run_ops tasks [(calm 0 200 "k1", OpDequeueWithAckId);
                      (calm 0 300 "k1", OpDequeueWithAckId)] tied_world) =
    [RDequeueWithAckId (Some task_A, true, cuid_New "k1");
     RDequeueWithAckId not_found] /\
  NoDup (acks_delivered
           (fst (run_ops tasks [(calm 0 200 "k1", OpDequeueWithAckId);
                                (calm 0 300 "k1", OpDequeueWithAckId)] tied_world))).
Proof.
  split; [exact tied_world_wf |]. split; [reflexivity |].
  exact (proj1 (@ack_ids_are_never_handed_out_twice tasks
                  [(calm 0 200 "k1", OpDequeueWithAckId);
                   (calm 0 300 "k1", OpDequeueWithAckId)] tied_world tied_world_wf)).
Defined.

(** X14 on [tied_world]. *)
Lemma dequeues_agree_on_selection_witness :
  found (fst (DequeueWithAckId tasks (calm 1 200 "k9") tied_world)) = true /\
  fst (Dequeue tasks (calm 1 200 "k9") tied_world) = (Some task_B, true).
Proof.
  split; [reflexivity |].
  exact (proj1 (dequeues_agree_on_selection tasks (calm 1 200 "k9") tied_world) eq_refl).
Defined.

(** X15 for the tables tasks and jobs. *)
Lemma seqName_separates_tables_witness :
  seqName "tasks" = "tasks_id_seq"%string /\
  seqName "tasks" <> "tasks"%string /\
  (seqName "tasks" = seqName "jobs" -> "tasks"%string = "jobs"%string).
Proof.
  split; [reflexivity |].
  destruct (seqName_separates_tables "tasks" "jobs") as (H1 & H2 & _).
  split; [exact H2 | exact H1].
Defined.
